(** * fix_encoding.py: a mojibake repair script, embedded and verified

    The script reads one file as UTF-8 text, reverses a
    "UTF-8 bytes read as Windows-1252" corruption with
    [content.encode('cp1252').decode('utf-8')], and writes the result back to
    the same path.  This development embeds

    - the two codecs the script names (CPython's strict [utf-8] codec and
      the [cp1252] charmap codec of [encodings/cp1252.py]), with the
      attributes of the exceptions they raise;
    - text-mode file input and output ([open(..., encoding='utf-8')] with the
      default [newline=None]);
    - the module body, its [try] block and its three [except] clauses, in a
      small state-and-exception monad over the file, a write buffer and a
      log of what the run did. *)

From Stdlib Require Import String ZArith List Bool Lia.
From Stdlib Require Import Strings.Byte.
Import ListNotations.
Local Open Scope Z_scope.

(** ** Values *)

(** A [str] is a sequence of code points; Python keeps them in
    [range(0x110000)].  A [bytes] object is a sequence of octets. *)
Definition codepoint := Z.
Definition str := list codepoint.
Definition bytes := list byte.

Definition ord (b : byte) : Z := Z.of_N (Byte.to_N b).

(** The C cast [(char) z]. *)
Definition chr8 (z : Z) : byte :=
  match Byte.of_N (Z.to_N (z mod 256)) with
  | Some b => b
  | None => x00
  end.

Inductive result (A E : Type) : Type :=
| Ok (a : A)
| Err (e : E).
Arguments Ok {A E} a.
Arguments Err {A E} e.

Definition cons_ok {A E} (a : A) (r : result (list A) E) : result (list A) E :=
  match r with
  | Ok l => Ok (a :: l)
  | Err e => Err e
  end.

(** ** Exceptions

    [UnicodeError] objects carry [encoding], [object], [start], [end] and
    [reason]; [str(e)] is computed from these five attributes alone.  The
    codecs below compute [start], [end] and [reason]; the entry points
    [str_encode] and [bytes_decode] add [encoding] and [object]. *)
Record unicode_error := UErr { start : nat; stop : nat; reason : string }.

Inductive errno := ENOENT | EACCES | ENOSPC.

Inductive exn :=
| UnicodeEncodeError (encoding : string) (object : str) (e : unicode_error)
| UnicodeDecodeError (encoding : string) (object : bytes) (e : unicode_error)
| OSError (code : errno) (filename : string).

(** ** The utf-8 codec *)
Module Utf8.

Definition IS_CONTINUATION_BYTE (ch : Z) : bool := (0x80 <=? ch) && (ch <? 0xC0).

Definition invalid_start (pos : nat) : unicode_error :=
  UErr pos (pos + 1) "invalid start byte".
Definition invalid_continuation (pos n : nat) : unicode_error :=
  UErr pos (pos + n) "invalid continuation byte".
(** [n] bytes were left when the input ended inside a sequence: [end] is the
    length of the input. *)
Definition unexpected_end (pos n : nat) : unicode_error :=
  UErr pos (pos + n) "unexpected end of data".

(** The strict decoder, one sequence per step; [pos] is the index of the
    first byte of [s] in the whole input. *)
Fixpoint decode (pos : nat) (s : bytes) : result str unicode_error :=
  match s with
  | [] => Ok []
  | b1 :: s1 =>
    let ch := ord b1 in
    if ch <? 0x80 then cons_ok ch (decode (pos + 1) s1)
    else if ch <? 0xE0 then
      (* \xC2\x80-\xDF\xBF -- 0080-07FF *)
      if ch <? 0xC2 then Err (invalid_start pos)
      else
        match s1 with
        | [] => Err (unexpected_end pos 1)
        | b2 :: s2 =>
          let ch2 := ord b2 in
          if negb (IS_CONTINUATION_BYTE ch2) then Err (invalid_continuation pos 1)
          else cons_ok (Z.shiftl ch 6 + ch2 - (Z.shiftl 0xC0 6 + 0x80))
                       (decode (pos + 2) s2)
        end
    else if ch <? 0xF0 then
      (* \xE0\xA0\x80-\xEF\xBF\xBF -- 0800-FFFF, surrogates excluded *)
      match s1 with
      | [] => Err (unexpected_end pos 1)
      | b2 :: s2 =>
        let ch2 := ord b2 in
        if negb (IS_CONTINUATION_BYTE ch2)
           || (if ch2 <? 0xA0 then ch =? 0xE0 else ch =? 0xED)
        then Err (invalid_continuation pos 1)
        else
          match s2 with
          | [] => Err (unexpected_end pos 2)
          | b3 :: s3 =>
            let ch3 := ord b3 in
            if negb (IS_CONTINUATION_BYTE ch3) then Err (invalid_continuation pos 2)
            else cons_ok (Z.shiftl ch 12 + Z.shiftl ch2 6 + ch3
                          - (Z.shiftl 0xE0 12 + Z.shiftl 0x80 6 + 0x80))
                         (decode (pos + 3) s3)
          end
      end
    else if ch <? 0xF5 then
      (* \xF0\x90\x80\x80-\xF4\x8F\xBF\xBF -- 10000-10FFFF *)
      match s1 with
      | [] => Err (unexpected_end pos 1)
      | b2 :: s2 =>
        let ch2 := ord b2 in
        if negb (IS_CONTINUATION_BYTE ch2)
           || (if ch2 <? 0x90 then ch =? 0xF0 else ch =? 0xF4)
        then Err (invalid_continuation pos 1)
        else
          match s2 with
          | [] => Err (unexpected_end pos 2)
          | b3 :: s3 =>
            let ch3 := ord b3 in
            if negb (IS_CONTINUATION_BYTE ch3) then Err (invalid_continuation pos 2)
            else
              match s3 with
              | [] => Err (unexpected_end pos 3)
              | b4 :: s4 =>
                let ch4 := ord b4 in
                if negb (IS_CONTINUATION_BYTE ch4)
                then Err (invalid_continuation pos 3)
                else cons_ok (Z.shiftl ch 18 + Z.shiftl ch2 12 + Z.shiftl ch3 6 + ch4
                              - (Z.shiftl 0xF0 18 + Z.shiftl 0x80 12
                                 + Z.shiftl 0x80 6 + 0x80))
                             (decode (pos + 4) s4)
              end
          end
      end
    else Err (invalid_start pos)
  end.

Definition Py_UNICODE_IS_SURROGATE (ch : Z) : bool := (0xD800 <=? ch) && (ch <=? 0xDFFF).

(** What the encoder refuses.  A [str] never holds a value outside
    [range(0x110000)]; the model refuses those where it refuses surrogates. *)
Definition unencodable (ch : Z) : bool :=
  Py_UNICODE_IS_SURROGATE ch || (ch <? 0) || (0x10FFFF <? ch).

(** The run of refused characters that an error reports. *)
Fixpoint error_run (bad : Z -> bool) (s : str) : nat :=
  match s with
  | [] => O
  | c :: s' => if bad c then S (error_run bad s') else O
  end.

Definition encode_char (ch : Z) : bytes :=
  if ch <? 0x80 then [chr8 ch]
  else if ch <? 0x800 then
    [chr8 (Z.lor 0xC0 (Z.shiftr ch 6)); chr8 (Z.lor 0x80 (Z.land ch 0x3F))]
  else if ch <? 0x10000 then
    [chr8 (Z.lor 0xE0 (Z.shiftr ch 12));
     chr8 (Z.lor 0x80 (Z.land (Z.shiftr ch 6) 0x3F));
     chr8 (Z.lor 0x80 (Z.land ch 0x3F))]
  else
    [chr8 (Z.lor 0xF0 (Z.shiftr ch 18));
     chr8 (Z.lor 0x80 (Z.land (Z.shiftr ch 12) 0x3F));
     chr8 (Z.lor 0x80 (Z.land (Z.shiftr ch 6) 0x3F));
     chr8 (Z.lor 0x80 (Z.land ch 0x3F))].

Fixpoint encode (pos : nat) (s : str) : result bytes unicode_error :=
  match s with
  | [] => Ok []
  | ch :: s' =>
    if unencodable ch
    then Err (UErr pos (pos + 1 + error_run unencodable s') "surrogates not allowed")
    else
      match encode (pos + 1) s' with
      | Ok b => Ok (encode_char ch ++ b)
      | Err e => Err e
      end
  end.

End Utf8.

(** ** The cp1252 codec ([encodings/cp1252.py], a charmap codec) *)
Module Cp1252.

(** Rows 0x80-0x9F of [decoding_table]; five bytes are UNDEFINED. *)
Definition decoding_table_80_9F : list (option codepoint) :=
  [ Some 0x20AC; None;        Some 0x201A; Some 0x0192;
    Some 0x201E; Some 0x2026; Some 0x2020; Some 0x2021;
    Some 0x02C6; Some 0x2030; Some 0x0160; Some 0x2039;
    Some 0x0152; None;        Some 0x017D; None;
    None;        Some 0x2018; Some 0x2019; Some 0x201C;
    Some 0x201D; Some 0x2022; Some 0x2013; Some 0x2014;
    Some 0x02DC; Some 0x2122; Some 0x0161; Some 0x203A;
    Some 0x0153; None;        Some 0x017E; Some 0x0178 ].

Definition decoding_table (b : byte) : option codepoint :=
  let n := ord b in
  if n <? 0x80 then Some n
  else if n <? 0xA0 then nth (Z.to_nat (n - 0x80)) decoding_table_80_9F None
  else Some n.

(** [encoding_table = codecs.charmap_build(decoding_table)]: the inverse. *)
Definition encoding_table (ch : codepoint) : option byte :=
  if (0 <=? ch) && (ch <? 0x80) then Some (chr8 ch)
  else if (0xA0 <=? ch) && (ch <=? 0xFF) then Some (chr8 ch)
  else
    match ch with
    | 0x20AC => Some x80 | 0x201A => Some x82 | 0x0192 => Some x83
    | 0x201E => Some x84 | 0x2026 => Some x85 | 0x2020 => Some x86
    | 0x2021 => Some x87 | 0x02C6 => Some x88 | 0x2030 => Some x89
    | 0x0160 => Some x8a | 0x2039 => Some x8b | 0x0152 => Some x8c
    | 0x017D => Some x8e | 0x2018 => Some x91 | 0x2019 => Some x92
    | 0x201C => Some x93 | 0x201D => Some x94 | 0x2022 => Some x95
    | 0x2013 => Some x96 | 0x2014 => Some x97 | 0x02DC => Some x98
    | 0x2122 => Some x99 | 0x0161 => Some x9a | 0x203A => Some x9b
    | 0x0153 => Some x9c | 0x017E => Some x9e | 0x0178 => Some x9f
    | _ => None
    end.

Definition unencodable (ch : codepoint) : bool :=
  match encoding_table ch with
  | Some _ => false
  | None => true
  end.

Fixpoint encode (pos : nat) (s : str) : result bytes unicode_error :=
  match s with
  | [] => Ok []
  | ch :: s' =>
    match encoding_table ch with
    | Some b => cons_ok b (encode (pos + 1) s')
    | None =>
      Err (UErr pos (pos + 1 + Utf8.error_run unencodable s')
                "character maps to <undefined>")
    end
  end.

Fixpoint decode (pos : nat) (s : bytes) : result str unicode_error :=
  match s with
  | [] => Ok []
  | b :: s' =>
    match decoding_table b with
    | Some ch => cons_ok ch (decode (pos + 1) s')
    | None => Err (UErr pos (pos + 1) "character maps to <undefined>")
    end
  end.

End Cp1252.

(** ** [str.encode] and [bytes.decode] *)
Inductive codec := cp1252 | utf_8.

(** The [encoding] attribute of the errors of each codec. *)
Definition error_name (c : codec) : string :=
  match c with
  | cp1252 => "charmap"
  | utf_8 => "utf-8"
  end.

Definition str_encode (s : str) (c : codec) : result bytes exn :=
  match (match c with cp1252 => Cp1252.encode | utf_8 => Utf8.encode end) O s with
  | Ok b => Ok b
  | Err e => Err (UnicodeEncodeError (error_name c) s e)
  end.

Definition bytes_decode (b : bytes) (c : codec) : result str exn :=
  match (match c with cp1252 => Cp1252.decode | utf_8 => Utf8.decode end) O b with
  | Ok s => Ok s
  | Err e => Err (UnicodeDecodeError (error_name c) b e)
  end.

(** ** Text-mode newline handling ([newline=None])

    On input, ['\r\n'] and a lone ['\r'] are read as ['\n'].  On output,
    each ['\n'] is written as [os.linesep]. *)
Definition CR : codepoint := 13.
Definition LF : codepoint := 10.

(** The part of the [os] module that text files depend on. *)
Module os.
Inductive name_t := posix | nt.
Definition linesep (name : name_t) : str :=
  match name with
  | posix => [LF]
  | nt => [CR; LF]
  end.
End os.

Fixpoint universal_newlines (s : str) : str :=
  match s with
  | [] => []
  | c :: s' =>
    if c =? CR then
      LF :: match s' with
            | [] => []
            | d :: s'' => if d =? LF then universal_newlines s''
                          else universal_newlines s'
            end
    else c :: universal_newlines s'
  end.

Definition write_newlines (linesep : str) (s : str) : str :=
  flat_map (fun c => if c =? LF then linesep else [c]) s.

(** ** The file, the run state and the monad of the module body *)

(** What the run can see of [file_path]: its bytes ([None]: no such file),
    whether it may be opened for reading and for writing, and how many bytes
    the volume lets it hold ([None]: no limit). *)
Record FileSystem := {
  disk : option bytes;
  readable : bool;
  writable : bool;
  quota : option nat
}.

Inductive mode := R | W.

(** The pieces of a printed line: literal text and formatted fields
    ([{e}], [{file_path}]). *)
Inductive value :=
| VStr (s : string)
| VExn (e : exn).
Definition line := list value.

(** What a run did, in order. *)
Inductive event :=
| EvOpen (m : mode)
| EvRead
| EvEncode (c : codec)
| EvDecode (c : codec)
| EvWrite (s : str)
| EvPrint (l : line).

Record State := {
  fs : FileSystem;
  buffer : bytes;       (* encoded text not yet flushed to the file *)
  log : list event
}.

Inductive outcome (A : Type) : Type :=
| Return (a : A) (st : State)
| Raise (e : exn) (st : State).
Arguments Return {A} a st.
Arguments Raise {A} e st.

Definition M (A : Type) : Type := State -> outcome A.

Definition ret {A} (a : A) : M A := fun st => Return a st.
Definition bind {A B} (m : M A) (k : A -> M B) : M B :=
  fun st =>
    match m st with
    | Return a st' => k a st'
    | Raise e st' => Raise e st'
    end.

Declare Scope py_scope.
Delimit Scope py_scope with py.
Notation "x <- m ;; k" := (bind m (fun x => k))
  (at level 61, m at next level, right associativity) : py_scope.
Notation "m ;; k" := (bind m (fun _ => k))
  (at level 61, right associativity) : py_scope.
Local Open Scope py_scope.

(** [try: body except ... as e: handler e] *)
Definition try_except {A} (body : M A) (handler : exn -> M A) : M A :=
  fun st =>
    match body st with
    | Return a st' => Return a st'
    | Raise e st' => handler e st'
    end.

Definition lift {A} (r : result A exn) : M A :=
  fun st =>
    match r with
    | Ok a => Return a st
    | Err e => Raise e st
    end.

Definition emit (ev : event) : M unit :=
  fun st => Return tt {| fs := fs st; buffer := buffer st; log := log st ++ [ev] |}.

Definition final {A} (o : outcome A) : State :=
  match o with
  | Return _ st => st
  | Raise _ st => st
  end.

Definition stdout (st : State) : list line :=
  flat_map (fun ev => match ev with EvPrint l => [l] | _ => [] end) (log st).

Definition print (l : line) : M unit := emit (EvPrint l).

(** [s.encode(c)] and [b.decode(c)] as steps of the run. *)
Definition encode (s : str) (c : codec) : M bytes :=
  emit (EvEncode c) ;; lift (str_encode s c).
Definition decode (b : bytes) (c : codec) : M str :=
  emit (EvDecode c) ;; lift (bytes_decode b c).

(** *** File objects *)

(** A text file object: its mode, the bytes it reads from (the file as it
    was when opened) and its encoding. *)
Record file := TextIOWrapper { f_mode : mode; f_raw : bytes; f_encoding : codec }.

Definition with_disk (d : option bytes) (fs0 : FileSystem) : FileSystem :=
  {| disk := d; readable := readable fs0; writable := writable fs0;
     quota := quota fs0 |}.

Definition set_disk (d : option bytes) (st : State) : State :=
  {| fs := with_disk d (fs st); buffer := buffer st; log := log st |}.

Definition set_buffer (b : bytes) (st : State) : State :=
  {| fs := fs st; buffer := b; log := log st |}.

(** [open(name, m, encoding=c)].  Mode ['w'] truncates the file (creating it
    if needed) as soon as the call succeeds. *)
Definition open_ (name : string) (m : mode) (c : codec) : M file :=
  emit (EvOpen m) ;;
  fun st =>
    match m with
    | R =>
      match disk (fs st) with
      | None => Raise (OSError ENOENT name) st
      | Some data =>
        if readable (fs st) then Return (TextIOWrapper R data c) st
        else Raise (OSError EACCES name) st
      end
    | W =>
      if writable (fs st) then Return (TextIOWrapper W [] c) (set_disk (Some []) st)
      else Raise (OSError EACCES name) st
    end.

(** [f.read()]: decode everything, then translate newlines. *)
Definition read (f : file) : M str :=
  emit EvRead ;;
  s <- lift (bytes_decode (f_raw f) (f_encoding f)) ;;
  ret (universal_newlines s).

(** [f.write(s)]: translate newlines, encode, append to the buffer. *)
Definition write (linesep : str) (f : file) (s : str) : M unit :=
  emit (EvWrite s) ;;
  data <- lift (str_encode (write_newlines linesep s) (f_encoding f)) ;;
  fun st => Return tt (set_buffer (buffer st ++ data) st).

(** Closing flushes the buffer.  When the file may not grow to hold all of
    it, what fits is stored and [OSError] (ENOSPC) is raised.  The model
    flushes at the close only and records the path in the error; CPython
    flushes inside [f.write] once the text outgrows its buffer and leaves
    the filename of that error unset.  Either way the exception reaches the
    same [except] clause with the file already truncated. *)
Definition close (name : string) (f : file) : M unit :=
  fun st =>
    match f_mode f with
    | R => Return tt st
    | W =>
      let old := match disk (fs st) with Some d => d | None => [] end in
      let all := old ++ buffer st in
      match quota (fs st) with
      | None => Return tt (set_buffer [] (set_disk (Some all) st))
      | Some q =>
        if (length all <=? q)%nat
        then Return tt (set_buffer [] (set_disk (Some all) st))
        else Raise (OSError ENOSPC name)
                   (set_buffer [] (set_disk (Some (firstn q all)) st))
      end
    end.

(** [with open(name, m, encoding=c) as f: body f]: the file is closed on the
    way out, also when [body] raised. *)
Definition with_open {A} (name : string) (m : mode) (c : codec)
    (body : file -> M A) : M A :=
  f <- open_ name m c ;;
  fun st =>
    match body f st with
    | Return a st' => (close name f ;; ret a) st'
    | Raise e st' =>
      match close name f st' with
      | Return _ st'' => Raise e st''
      | Raise e' st'' => Raise e' st''
      end
    end.

(** ** The script *)
Section Script.

(** [os.name], a constant of the platform the script runs on. *)
Variable name : os.name_t.

Definition file_path : string :=
  "c:\Users\Owner\Desktop\Botai\src\components\UI\ControlPanel.jsx".

(** The [try] block. *)
Definition try_block : M unit :=
  content <- with_open file_path R utf_8 (fun f => read f) ;;
  fixed_content <- (b <- encode content cp1252 ;; decode b utf_8) ;;
  print [VStr "Successfully decoded content."] ;;
  with_open file_path W utf_8 (fun f => write (os.linesep name) f fixed_content) ;;
  print [VStr "Fixed encoding for "; VStr file_path].

(** The three [except] clauses, tried in order. *)
Definition handlers (e : exn) : M unit :=
  match e with
  | UnicodeEncodeError _ _ _ =>
    print [VStr "Error during encoding (some characters might not map to cp1252): ";
           VExn e]
  | UnicodeDecodeError _ _ _ =>
    print [VStr "Error during decoding (bytes might not be valid utf-8): "; VExn e]
  | _ =>
    print [VStr "An error occurred: "; VExn e]
  end.

Definition main : M unit := try_except try_block handlers.

(** A run of the script against a file system. *)
Definition boot (fs0 : FileSystem) : State :=
  {| fs := fs0; buffer := []; log := [] |}.

Definition run (fs0 : FileSystem) : outcome unit := main (boot fs0).

End Script.

(** The lines the script prints. *)
Definition decoded_line : line := [VStr "Successfully decoded content."].
Definition fixed_line : line := [VStr "Fixed encoding for "; VStr file_path].
Definition encode_error_line (e : exn) : line :=
  [VStr "Error during encoding (some characters might not map to cp1252): "; VExn e].
Definition decode_error_line (e : exn) : line :=
  [VStr "Error during decoding (bytes might not be valid utf-8): "; VExn e].
Definition other_error_line (e : exn) : line :=
  [VStr "An error occurred: "; VExn e].

Definition is_error_line (l : line) : bool :=
  match l with
  | [VStr _; VExn _] => true
  | _ => false
  end.

(** The line an [except] clause prints for [e]. *)
Definition report (e : exn) : line :=
  match e with
  | UnicodeEncodeError _ _ _ => encode_error_line e
  | UnicodeDecodeError _ _ _ => decode_error_line e
  | OSError _ _ => other_error_line e
  end.

(** What the log holds once the file has been read, and once the text has
    been transcoded. *)
Definition read_log : list event := [EvOpen R; EvRead].
Definition repair_log : list event :=
  [EvOpen R; EvRead; EvEncode cp1252; EvDecode utf_8; EvPrint decoded_line].

(** ** The stages as functions of the data *)

(** Stage 1, what [f.read()] returns for a file holding [b]. *)
Definition read_text (b : bytes) : result str exn :=
  match bytes_decode b utf_8 with
  | Ok s => Ok (universal_newlines s)
  | Err e => Err e
  end.

(** Stages 2 and 3, [content.encode('cp1252').decode('utf-8')]. *)
Definition repair (content : str) : result str exn :=
  match str_encode content cp1252 with
  | Ok b => bytes_decode b utf_8
  | Err e => Err e
  end.

(** The corruption the script sets out to undo: UTF-8 bytes interpreted as
    Windows-1252. *)
Definition corrupt (t : str) : result str exn :=
  match str_encode t utf_8 with
  | Ok b => bytes_decode b cp1252
  | Err e => Err e
  end.

(** Stage 4, the bytes [f.write(fixed_content)] hands to the file. *)
Definition text_bytes (name : os.name_t) (s : str) : result bytes exn :=
  str_encode (write_newlines (os.linesep name) s) utf_8.

Definition is_ascii (c : codepoint) : Prop := 0 <= c < 0x80.

(** Stages 1 to 3 succeed on the file and yield [fixed]. *)
Definition transcoded (fs0 : FileSystem) (fixed : str) : Prop :=
  exists b content,
    disk fs0 = Some b /\ readable fs0 = true
    /\ read_text b = Ok content /\ repair content = Ok fixed.

(** The text of the spec's scenario and its mojibake, as code points. *)
Definition ecole : str := [0xE9; 0x63; 0x6F; 0x6C; 0x65].
Definition ecole_mojibake : str := [0xC3; 0xA9; 0x63; 0x6F; 0x6C; 0x65].

(** A file holding [b] that may be read and written without limit. *)
Definition file_of (b : bytes) : FileSystem :=
  {| disk := Some b; readable := true; writable := true; quota := None |}.

(** The file may grow to hold [data]. *)
Definition fits (q : option nat) (data : bytes) : Prop :=
  match q with
  | None => True
  | Some n => (length data <= n)%nat
  end.

(** Every CR of [b] is followed by LF and every LF preceded by CR. *)
Fixpoint crlf_only (b : bytes) : bool :=
  match b with
  | [] => true
  | x :: b' =>
    if Byte.eqb x x0d then
      match b' with
      | y :: b'' => Byte.eqb y x0a && crlf_only b''
      | [] => false
      end
    else if Byte.eqb x x0a then false
    else crlf_only b'
  end.

(** * Properties *)

(** ** Octets *)

Lemma ord_range (b : byte) : 0 <= ord b < 256.
Proof.
  unfold ord. pose proof (Byte.to_N_bounded b). lia.
Qed.

Lemma chr8_ord (b : byte) : chr8 (ord b) = b.
Proof.
  unfold chr8. pose proof (ord_range b) as Hb.
  rewrite Z.mod_small by exact Hb.
  unfold ord. rewrite N2Z.id, Byte.of_to_N. reflexivity.
Qed.

Lemma ord_chr8 (z : Z) : 0 <= z < 256 -> ord (chr8 z) = z.
Proof.
  intros Hz. unfold chr8. rewrite Z.mod_small by exact Hz.
  destruct (Byte.of_N (Z.to_N z)) as [b|] eqn:E.
  - apply Byte.to_of_N in E. unfold ord. rewrite E. lia.
  - apply Byte.of_N_None_iff in E. lia.
Qed.

Lemma ord_inj (a b : byte) : ord a = ord b -> a = b.
Proof.
  intros H. rewrite <- (chr8_ord a), <- (chr8_ord b), H. reflexivity.
Qed.

(** A property checked on every value below [n] holds below [n]. *)
Lemma forall_below (P : Z -> bool) (n : nat) :
  forallb P (map Z.of_nat (seq 0 n)) = true ->
  forall z, 0 <= z < Z.of_nat n -> P z = true.
Proof.
  intros H z Hz. rewrite forallb_forall in H. apply H.
  apply in_map_iff. exists (Z.to_nat z). split; [lia|].
  apply in_seq. lia.
Qed.

Lemma lor_80 (x : Z) : 0 <= x < 64 -> Z.lor 0x80 x = 0x80 + x.
Proof.
  intros H. apply Z.eqb_eq.
  apply (forall_below (fun x => Z.lor 0x80 x =? 0x80 + x) 64); [reflexivity | lia].
Qed.

Lemma lor_C0 (x : Z) : 0 <= x < 32 -> Z.lor 0xC0 x = 0xC0 + x.
Proof.
  intros H. apply Z.eqb_eq.
  apply (forall_below (fun x => Z.lor 0xC0 x =? 0xC0 + x) 32); [reflexivity | lia].
Qed.

Lemma lor_E0 (x : Z) : 0 <= x < 16 -> Z.lor 0xE0 x = 0xE0 + x.
Proof.
  intros H. apply Z.eqb_eq.
  apply (forall_below (fun x => Z.lor 0xE0 x =? 0xE0 + x) 16); [reflexivity | lia].
Qed.

Lemma lor_F0 (x : Z) : 0 <= x < 8 -> Z.lor 0xF0 x = 0xF0 + x.
Proof.
  intros H. apply Z.eqb_eq.
  apply (forall_below (fun x => Z.lor 0xF0 x =? 0xF0 + x) 8); [reflexivity | lia].
Qed.

Lemma land_3F (x : Z) : Z.land x 0x3F = x mod 64.
Proof.
  change 0x3F with (Z.ones 6). rewrite Z.land_ones by lia. reflexivity.
Qed.

Lemma shiftr_div (x n : Z) : 0 <= n -> Z.shiftr x n = x / 2 ^ n.
Proof. intros. apply Z.shiftr_div_pow2; assumption. Qed.

Lemma shiftl_mul (x n : Z) : 0 <= n -> Z.shiftl x n = x * 2 ^ n.
Proof. intros. apply Z.shiftl_mul_pow2; assumption. Qed.

Lemma shiftr_6 x : Z.shiftr x 6 = x / 64.
Proof. apply (shiftr_div x 6). lia. Qed.
Lemma shiftr_12 x : Z.shiftr x 12 = x / 4096.
Proof. apply (shiftr_div x 12). lia. Qed.
Lemma shiftr_18 x : Z.shiftr x 18 = x / 262144.
Proof. apply (shiftr_div x 18). lia. Qed.
Lemma shiftl_6 x : Z.shiftl x 6 = x * 64.
Proof. apply (shiftl_mul x 6). lia. Qed.
Lemma shiftl_12 x : Z.shiftl x 12 = x * 4096.
Proof. apply (shiftl_mul x 12). lia. Qed.
Lemma shiftl_18 x : Z.shiftl x 18 = x * 262144.
Proof. apply (shiftl_mul x 18). lia. Qed.

(** ** The utf-8 codec: decoding inverts encoding *)

Ltac div_lia := Z.div_mod_to_equations; lia.

Ltac decide_tests :=
  repeat (match goal with
          | |- context [?a <? ?b] => destruct (Z.ltb_spec a b); try lia
          | |- context [?a <=? ?b] => destruct (Z.leb_spec a b); try lia
          | |- context [?a =? ?b] => destruct (Z.eqb_spec a b); try lia
          end; cbn [negb orb andb]).

Lemma unencodable_false (c : Z) :
  Utf8.unencodable c = false ->
  0 <= c <= 0x10FFFF /\ (c < 0xD800 \/ 0xDFFF < c).
Proof.
  unfold Utf8.unencodable, Utf8.Py_UNICODE_IS_SURROGATE. lia.
Qed.

Lemma utf8_decode_encode_char (c : Z) (rest : bytes) (p : nat) :
  Utf8.unencodable c = false ->
  exists n, Utf8.decode p (Utf8.encode_char c ++ rest)
            = cons_ok c (Utf8.decode (p + n) rest).
Proof.
  intros H. apply unencodable_false in H. unfold Utf8.encode_char.
  destruct (Z.ltb_spec c 0x80); [| destruct (Z.ltb_spec c 0x800);
                                   [| destruct (Z.ltb_spec c 0x10000)]].
  - exists 1%nat. cbn [app Utf8.decode]. rewrite ord_chr8 by lia.
    decide_tests. reflexivity.
  - exists 2%nat. rewrite !land_3F, !shiftr_6.
    rewrite lor_C0, lor_80 by div_lia.
    cbn [app Utf8.decode]. unfold Utf8.IS_CONTINUATION_BYTE.
    rewrite !ord_chr8 by div_lia. rewrite !shiftl_6.
    Z.div_mod_to_equations. decide_tests; f_equal; lia.
  - exists 3%nat. rewrite !land_3F, !shiftr_6, !shiftr_12.
    rewrite lor_E0, !lor_80 by div_lia.
    cbn [app Utf8.decode]. unfold Utf8.IS_CONTINUATION_BYTE.
    rewrite !ord_chr8 by div_lia. rewrite !shiftl_6, !shiftl_12.
    Z.div_mod_to_equations. decide_tests; f_equal; lia.
  - exists 4%nat. rewrite !land_3F, !shiftr_6, !shiftr_12, !shiftr_18.
    rewrite lor_F0, !lor_80 by div_lia.
    cbn [app Utf8.decode]. unfold Utf8.IS_CONTINUATION_BYTE.
    rewrite !ord_chr8 by div_lia. rewrite !shiftl_6, !shiftl_12, !shiftl_18.
    Z.div_mod_to_equations. decide_tests; f_equal; lia.
Qed.

Lemma utf8_decode_encode (s : str) :
  forall (p : nat) (b : bytes),
    Utf8.encode p s = Ok b -> forall q, Utf8.decode q b = Ok s.
Proof.
  induction s as [| c s IH]; intros p b H q.
  - simpl in H. injection H as <-. reflexivity.
  - simpl in H. destruct (Utf8.unencodable c) eqn:Hc; [discriminate |].
    destruct (Utf8.encode (p + 1) s) as [b' |] eqn:Hs; [| discriminate].
    injection H as <-.
    destruct (utf8_decode_encode_char c b' q Hc) as [n Hn].
    rewrite Hn, (IH _ _ Hs). reflexivity.
Qed.

(** ** The cp1252 codec: encoding inverts decoding *)

Lemma cp1252_encoding_decoding (b : byte) (c : codepoint) :
  Cp1252.decoding_table b = Some c -> Cp1252.encoding_table c = Some b.
Proof.
  intros H.
  destruct b; vm_compute in H; try discriminate H; injection H as <-; reflexivity.
Qed.

Lemma cp1252_encode_decode (b : bytes) :
  forall (p : nat) (s : str),
    Cp1252.decode p b = Ok s -> forall q, Cp1252.encode q s = Ok b.
Proof.
  induction b as [| x b IH]; intros p s H q.
  - simpl in H. injection H as <-. reflexivity.
  - simpl in H. destruct (Cp1252.decoding_table x) as [c |] eqn:Hx; [| discriminate].
    destruct (Cp1252.decode (p + 1) b) as [s' |] eqn:Hs; [| discriminate].
    simpl in H. injection H as <-.
    simpl. rewrite (cp1252_encoding_decoding _ _ Hx), (IH _ _ Hs). reflexivity.
Qed.

(** The repair undoes the corruption. *)
Lemma repair_corrupt (t m : str) : corrupt t = Ok m -> repair m = Ok t.
Proof.
  unfold corrupt, repair, str_encode, bytes_decode. intros H.
  destruct (Utf8.encode 0 t) as [b |] eqn:Ht; [| discriminate].
  destruct (Cp1252.decode 0 b) as [m' |] eqn:Hb; [| discriminate].
  injection H as <-.
  rewrite (cp1252_encode_decode _ _ _ Hb), (utf8_decode_encode _ _ _ Ht).
  reflexivity.
Qed.

(** ** ASCII text *)

Lemma cp1252_encode_ascii (s : str) :
  Forall is_ascii s -> forall p, Cp1252.encode p s = Ok (map chr8 s).
Proof.
  induction 1 as [| c s Hc _ IH]; intros p; [reflexivity |].
  simpl. unfold Cp1252.encoding_table. unfold is_ascii in Hc.
  destruct (Z.leb_spec 0 c); [| lia]. destruct (Z.ltb_spec c 0x80); [| lia].
  simpl. rewrite IH. reflexivity.
Qed.

Lemma utf8_decode_ascii (s : str) :
  Forall is_ascii s -> forall p, Utf8.decode p (map chr8 s) = Ok s.
Proof.
  induction 1 as [| c s Hc _ IH]; intros p; [reflexivity |].
  unfold is_ascii in Hc. cbn [map Utf8.decode]. rewrite ord_chr8 by lia.
  destruct (Z.ltb_spec c 0x80); [| lia]. rewrite IH. reflexivity.
Qed.

Lemma utf8_encode_ascii (s : str) :
  Forall is_ascii s -> forall p, Utf8.encode p s = Ok (map chr8 s).
Proof.
  induction 1 as [| c s Hc _ IH]; intros p; [reflexivity |].
  unfold is_ascii in Hc. cbn [map Utf8.encode].
  replace (Utf8.unencodable c) with false
    by (unfold Utf8.unencodable, Utf8.Py_UNICODE_IS_SURROGATE; lia).
  rewrite IH. unfold Utf8.encode_char.
  destruct (Z.ltb_spec c 0x80); [| lia]. reflexivity.
Qed.

Lemma utf8_decode_ascii_bytes (b : bytes) :
  Forall (fun x => is_ascii (ord x)) b -> forall p, Utf8.decode p b = Ok (map ord b).
Proof.
  induction 1 as [| x b Hx _ IH]; intros p; [reflexivity |].
  unfold is_ascii in Hx. cbn [map Utf8.decode].
  destruct (Z.ltb_spec (ord x) 0x80); [| lia]. rewrite IH. reflexivity.
Qed.

Lemma repair_ascii (s : str) : Forall is_ascii s -> repair s = Ok s.
Proof.
  intros H. unfold repair, str_encode, bytes_decode.
  rewrite (cp1252_encode_ascii s H), (utf8_decode_ascii s H). reflexivity.
Qed.

(** ** Newline translation *)

(** Induction for functions that look two elements ahead. *)
Lemma list_pair_ind (A : Type) (P : list A -> Prop) :
  P [] -> (forall a, P [a]) ->
  (forall a b l, P l -> P (b :: l) -> P (a :: b :: l)) ->
  forall l, P l.
Proof.
  intros H0 H1 H2 l.
  assert (H : P l /\ forall a, P (a :: l)).
  { induction l as [| b l [IHl IHbl]].
    - split; [exact H0 | exact H1].
    - split; [apply IHbl |]. intros a. apply H2; [exact IHl | apply IHbl]. }
  exact (proj1 H).
Qed.

Lemma universal_newlines_Forall (P : codepoint -> Prop) (s : str) :
  P LF -> Forall P s -> Forall P (universal_newlines s).
Proof.
  intros HLF. induction s as [| a | a b l IHl IHbl] using list_pair_ind; intros H.
  - constructor.
  - simpl. destruct (a =? CR); repeat constructor; [exact HLF |].
    inversion H; assumption.
  - inversion H as [| ? ? Ha Hbl]; subst.
    inversion Hbl as [| ? ? Hb Hl]; subst.
    change (universal_newlines (a :: b :: l))
      with (if a =? CR
            then LF :: (if b =? LF then universal_newlines l
                        else universal_newlines (b :: l))
            else a :: universal_newlines (b :: l)).
    destruct (a =? CR); [destruct (b =? LF) |]; constructor; auto.
Qed.

Lemma universal_newlines_Exists (P : codepoint -> Prop) (s : str) :
  ~ P CR -> ~ P LF -> Exists P s -> Exists P (universal_newlines s).
Proof.
  intros HCR HLF. induction s as [| a | a b l IHl IHbl] using list_pair_ind; intros H.
  - inversion H.
  - inversion H as [? ? Ha | ? ? Hn]; subst; [| inversion Hn].
    simpl. destruct (Z.eqb_spec a CR) as [-> |]; [contradiction |].
    constructor. exact Ha.
  - change (universal_newlines (a :: b :: l))
      with (if a =? CR
            then LF :: (if b =? LF then universal_newlines l
                        else universal_newlines (b :: l))
            else a :: universal_newlines (b :: l)).
    inversion H as [? ? Ha | ? ? Hbl]; subst.
    + destruct (Z.eqb_spec a CR) as [-> |]; [contradiction |].
      constructor. exact Ha.
    + destruct (a =? CR); [| apply Exists_cons_tl; auto].
      apply Exists_cons_tl.
      destruct (Z.eqb_spec b LF) as [-> |]; [| auto].
      inversion Hbl as [? ? Hb | ? ? Hl]; subst; [contradiction | auto].
Qed.

Lemma universal_newlines_id (s : str) : ~ In CR s -> universal_newlines s = s.
Proof.
  induction s as [| c s IH]; intros H; [reflexivity |].
  simpl. destruct (Z.eqb_spec c CR) as [-> |].
  - exfalso. apply H. left. reflexivity.
  - rewrite IH; [reflexivity |]. intros Hin. apply H. right. exact Hin.
Qed.

Lemma write_newlines_posix (s : str) : write_newlines (os.linesep os.posix) s = s.
Proof.
  unfold write_newlines. induction s as [| c s IH]; [reflexivity |].
  cbn [flat_map]. rewrite IH.
  destruct (Z.eqb_spec c LF) as [-> |]; reflexivity.
Qed.

Lemma write_newlines_ascii (name : os.name_t) (s : str) :
  Forall is_ascii s -> Forall is_ascii (write_newlines (os.linesep name) s).
Proof.
  unfold write_newlines. induction 1 as [| c s Hc _ IH]; [constructor |].
  cbn [flat_map]. apply Forall_app. split; [| exact IH].
  destruct (c =? LF); [| constructor; [exact Hc | constructor]].
  destruct name; repeat (constructor; [unfold is_ascii, CR, LF; lia |]);
    constructor.
Qed.

(** ** Characters that cp1252 cannot represent *)

Lemma cp1252_encode_unencodable (s : str) :
  Exists (fun c => Cp1252.encoding_table c = None) s ->
  forall p, exists e, Cp1252.encode p s = Err e.
Proof.
  induction s as [| c s IH]; intros H p; [inversion H |].
  simpl. destruct (Cp1252.encoding_table c) as [b |] eqn:Hc.
  - inversion H as [? ? Hc' | ? ? Hs]; subst; [congruence |].
    destruct (IH Hs (p + 1)%nat) as [e He]. rewrite He. eexists. reflexivity.
  - eexists. reflexivity.
Qed.

(** ** Runs, stage by stage *)

Ltac run_step :=
  cbv [run main try_except try_block with_open bind ret lift emit print
       encode decode read write close open_ boot set_disk set_buffer with_disk
       fs buffer log disk readable writable quota f_mode f_raw f_encoding
       handlers app].

Ltac open_fs fs0 :=
  destruct fs0 as [d r w q]; cbn [disk readable writable quota] in *; subst.

Section Runs.

Variable name : os.name_t.

Lemma bytes_decode_error (b : bytes) (c : codec) (e : exn) :
  bytes_decode b c = Err e -> exists n u, e = UnicodeDecodeError n b u.
Proof.
  unfold bytes_decode.
  destruct (match c with cp1252 => Cp1252.decode | utf_8 => Utf8.decode end 0%nat b);
    intros H; [discriminate |]. injection H as <-. eauto.
Qed.

Lemma str_encode_error (s : str) (c : codec) (e : exn) :
  str_encode s c = Err e -> exists n u, e = UnicodeEncodeError n s u.
Proof.
  unfold str_encode.
  destruct (match c with cp1252 => Cp1252.encode | utf_8 => Utf8.encode end 0%nat s);
    intros H; [discriminate |]. injection H as <-. eauto.
Qed.

Lemma run_no_file (fs0 : FileSystem) :
  disk fs0 = None ->
  run name fs0
  = Return tt {| fs := fs0; buffer := [];
                 log := [EvOpen R;
                         EvPrint (other_error_line (OSError ENOENT file_path))] |}.
Proof. intros H. open_fs fs0. reflexivity. Qed.

Lemma run_unreadable (fs0 : FileSystem) (b : bytes) :
  disk fs0 = Some b -> readable fs0 = false ->
  run name fs0
  = Return tt {| fs := fs0; buffer := [];
                 log := [EvOpen R;
                         EvPrint (other_error_line (OSError EACCES file_path))] |}.
Proof. intros H1 H2. open_fs fs0. reflexivity. Qed.

Lemma run_read_error (fs0 : FileSystem) (b : bytes) (e : exn) :
  disk fs0 = Some b -> readable fs0 = true -> read_text b = Err e ->
  run name fs0
  = Return tt {| fs := fs0; buffer := [];
                 log := read_log ++ [EvPrint (decode_error_line e)] |}.
Proof.
  intros H1 H2 H3. open_fs fs0. unfold read_text in H3.
  destruct (bytes_decode b utf_8) as [s |] eqn:Hb; [discriminate |].
  injection H3 as ->. destruct (bytes_decode_error _ _ _ Hb) as (n & u & ->).
  run_step. rewrite Hb. reflexivity.
Qed.

Lemma run_encode_error (fs0 : FileSystem) (b : bytes) (content : str) (e : exn) :
  disk fs0 = Some b -> readable fs0 = true -> read_text b = Ok content ->
  str_encode content cp1252 = Err e ->
  run name fs0
  = Return tt {| fs := fs0; buffer := [];
                 log := read_log ++ [EvEncode cp1252; EvPrint (encode_error_line e)] |}.
Proof.
  intros H1 H2 H3 H4. open_fs fs0. unfold read_text in H3.
  destruct (bytes_decode b utf_8) as [s |] eqn:Hb; [| discriminate].
  injection H3 as <-. destruct (str_encode_error _ _ _ H4) as (n & u & ->).
  run_step. rewrite Hb. run_step. rewrite H4. reflexivity.
Qed.

Lemma run_decode_error (fs0 : FileSystem) (b b' : bytes) (content : str) (e : exn) :
  disk fs0 = Some b -> readable fs0 = true -> read_text b = Ok content ->
  str_encode content cp1252 = Ok b' -> bytes_decode b' utf_8 = Err e ->
  run name fs0
  = Return tt {| fs := fs0; buffer := [];
                 log := read_log ++ [EvEncode cp1252; EvDecode utf_8;
                                     EvPrint (decode_error_line e)] |}.
Proof.
  intros H1 H2 H3 H4 H5. open_fs fs0. unfold read_text in H3.
  destruct (bytes_decode b utf_8) as [s |] eqn:Hb; [| discriminate].
  injection H3 as <-. destruct (bytes_decode_error _ _ _ H5) as (n & u & ->).
  run_step. rewrite Hb. run_step. rewrite H4. run_step. rewrite H5. reflexivity.
Qed.

Lemma repair_Ok (content fixed : str) :
  repair content = Ok fixed ->
  exists b', str_encode content cp1252 = Ok b' /\ bytes_decode b' utf_8 = Ok fixed.
Proof.
  unfold repair. destruct (str_encode content cp1252) as [b' |]; [| discriminate].
  eauto.
Qed.

Lemma run_open_denied (fs0 : FileSystem) (b : bytes) (content fixed : str) :
  disk fs0 = Some b -> readable fs0 = true -> read_text b = Ok content ->
  repair content = Ok fixed -> writable fs0 = false ->
  run name fs0
  = Return tt {| fs := fs0; buffer := [];
                 log := repair_log
                        ++ [EvOpen W;
                            EvPrint (other_error_line (OSError EACCES file_path))] |}.
Proof.
  intros H1 H2 H3 H4 H5. open_fs fs0. unfold read_text in H3.
  destruct (bytes_decode b utf_8) as [s |] eqn:Hb; [| discriminate].
  injection H3 as <-. destruct (repair_Ok _ _ H4) as (b' & He & Hd).
  run_step. rewrite Hb. run_step. rewrite He. run_step. rewrite Hd. reflexivity.
Qed.

Lemma run_written (fs0 : FileSystem) (b data : bytes) (content fixed : str) :
  disk fs0 = Some b -> readable fs0 = true -> read_text b = Ok content ->
  repair content = Ok fixed -> writable fs0 = true ->
  text_bytes name fixed = Ok data -> fits (quota fs0) data ->
  run name fs0
  = Return tt {| fs := with_disk (Some data) fs0; buffer := [];
                 log := repair_log
                        ++ [EvOpen W; EvWrite fixed; EvPrint fixed_line] |}.
Proof.
  intros H1 H2 H3 H4 H5 H6 H7. open_fs fs0. unfold read_text in H3.
  destruct (bytes_decode b utf_8) as [s |] eqn:Hb; [| discriminate].
  injection H3 as <-. destruct (repair_Ok _ _ H4) as (b' & He & Hd).
  unfold text_bytes in H6.
  run_step. rewrite Hb. run_step. rewrite He. run_step. rewrite Hd. run_step.
  rewrite H6. destruct q as [n' |]; [| reflexivity].
  cbn [fits] in H7. apply Nat.leb_le in H7. rewrite H7. reflexivity.
Qed.

Lemma run_no_space (fs0 : FileSystem) (b data : bytes) (content fixed : str)
    (n : nat) :
  disk fs0 = Some b -> readable fs0 = true -> read_text b = Ok content ->
  repair content = Ok fixed -> writable fs0 = true ->
  text_bytes name fixed = Ok data -> quota fs0 = Some n -> (n < length data)%nat ->
  run name fs0
  = Return tt {| fs := with_disk (Some (firstn n data)) fs0; buffer := [];
                 log := repair_log
                        ++ [EvOpen W; EvWrite fixed;
                            EvPrint (other_error_line (OSError ENOSPC file_path))] |}.
Proof.
  intros H1 H2 H3 H4 H5 H6 H7 H8. open_fs fs0. unfold read_text in H3.
  destruct (bytes_decode b utf_8) as [s |] eqn:Hb; [| discriminate].
  injection H3 as <-. destruct (repair_Ok _ _ H4) as (b' & He & Hd).
  unfold text_bytes in H6.
  run_step. rewrite Hb. run_step. rewrite He. run_step. rewrite Hd. run_step.
  rewrite H6. apply Nat.leb_gt in H8. rewrite H8. reflexivity.
Qed.

End Runs.

(** ** What the utf-8 decoder yields can be encoded again *)

Ltac break_tests H :=
  repeat match type of H with
         | context [if ?c then _ else _] => destruct c eqn:?; try discriminate H
         | context [match ?l with [] => _ | _ :: _ => _ end] =>
           destruct l; try discriminate H
         end.

Ltac to_Prop :=
  unfold Utf8.IS_CONTINUATION_BYTE in *;
  repeat match goal with
         | H : negb _ = false |- _ => apply negb_false_iff in H
         | H : _ || _ = false |- _ => apply orb_false_iff in H; destruct H
         | H : _ && _ = true |- _ => apply andb_true_iff in H; destruct H
         | H : (if ?c then _ else _) = false |- _ => destruct c eqn:?
         end.

Lemma cons_ok_Ok (A E : Type) (a : A) (r : result (list A) E) (l : list A) :
  cons_ok a r = Ok l -> exists l', r = Ok l' /\ l = a :: l'.
Proof.
  destruct r as [l' |]; cbn; intros H; [| discriminate].
  injection H as <-. eauto.
Qed.

Lemma utf8_decode_encodable (n : nat) :
  forall (b : bytes) (p : nat) (s : str),
    (length b <= n)%nat -> Utf8.decode p b = Ok s ->
    Forall (fun c => Utf8.unencodable c = false) s.
Proof.
  induction n as [| n IH]; intros b p s Hn H.
  - destruct b; [| cbn in Hn; lia]. injection H as <-. constructor.
  - destruct b as [| b1 b]; [injection H as <-; constructor |].
    cbn [Utf8.decode] in H. cbv zeta in H. break_tests H;
      apply cons_ok_Ok in H; destruct H as (s' & Hs' & ->);
      (constructor;
       [| apply (fun Hlen => IH _ _ _ Hlen Hs'); cbn [length] in Hn |- *; lia]);
      clear Hn IH; rewrite ?shiftl_6, ?shiftl_12, ?shiftl_18;
      repeat match goal with
             | x : byte |- _ => pose proof (ord_range x); generalize dependent (ord x);
                                clear x; intros
             end;
      to_Prop;
      unfold Utf8.unencodable, Utf8.Py_UNICODE_IS_SURROGATE; lia.
Qed.

Lemma utf8_encode_total (s : str) :
  Forall (fun c => Utf8.unencodable c = false) s ->
  forall p, exists b, Utf8.encode p s = Ok b.
Proof.
  induction 1 as [| c s Hc _ IH]; intros p; [eexists; reflexivity |].
  cbn [Utf8.encode]. rewrite Hc. destruct (IH (p + 1)%nat) as [b ->].
  eexists. reflexivity.
Qed.

(** Once the transcode has succeeded, encoding the text for the file
    cannot fail. *)
Lemma text_bytes_total (name : os.name_t) (content fixed : str) :
  repair content = Ok fixed -> exists data, text_bytes name fixed = Ok data.
Proof.
  intros H. destruct (repair_Ok _ _ H) as (b' & _ & Hd).
  unfold bytes_decode in Hd.
  destruct (Utf8.decode 0 b') as [s |] eqn:Hs; [| discriminate].
  injection Hd as ->.
  pose proof (utf8_decode_encodable _ b' 0%nat fixed (le_n _) Hs) as Hf.
  assert (Hw : Forall (fun c => Utf8.unencodable c = false)
                      (write_newlines (os.linesep name) fixed)).
  { unfold write_newlines. clear Hs H. induction Hf as [| c s Hc _ IH]; [constructor |].
    cbn [flat_map]. apply Forall_app. split; [| exact IH].
    destruct (c =? LF); [| constructor; [exact Hc | constructor]].
    destruct name; repeat (constructor; [reflexivity |]); constructor. }
  destruct (utf8_encode_total _ Hw 0%nat) as [data Hdata].
  exists data. unfold text_bytes, str_encode. rewrite Hdata. reflexivity.
Qed.

(** ** Every run falls under one of the stage lemmas *)

Ltac run_cases name fs0 :=
  let b := fresh "b" in
  let content := fresh "content" in
  let b' := fresh "b'" in
  let fixed := fresh "fixed" in
  let data := fresh "data" in
  let e := fresh "e" in
  let n := fresh "n" in
  let Hdisk := fresh "Hdisk" in
  let Hreadable := fresh "Hreadable" in
  let Hread := fresh "Hread" in
  let Henc := fresh "Henc" in
  let Hdec := fresh "Hdec" in
  let Hrep := fresh "Hrep" in
  let Hwritable := fresh "Hwritable" in
  let Htext := fresh "Htext" in
  let Hquota := fresh "Hquota" in
  let Hfit := fresh "Hfit" in
  destruct (disk fs0) as [b |] eqn:Hdisk;
  [ destruct (readable fs0) eqn:Hreadable;
    [ destruct (read_text b) as [content | e] eqn:Hread;
      [ destruct (str_encode content cp1252) as [b' | e] eqn:Henc;
        [ destruct (bytes_decode b' utf_8) as [fixed | e] eqn:Hdec;
          [ assert (Hrep : repair content = Ok fixed)
              by (unfold repair; rewrite Henc; exact Hdec);
            destruct (writable fs0) eqn:Hwritable;
            [ destruct (text_bytes_total name content fixed Hrep) as [data Htext];
              destruct (quota fs0) as [n |] eqn:Hquota;
              [ destruct (le_lt_dec (length data) n) as [Hfit | Hfit];
                [ rewrite (run_written name fs0 b data content fixed)
                    by (try rewrite Hquota; assumption)
                | rewrite (run_no_space name fs0 b data content fixed n)
                    by assumption ]
              | rewrite (run_written name fs0 b data content fixed)
                  by (try rewrite Hquota; first [assumption | exact I]) ]
            | rewrite (run_open_denied name fs0 b content fixed) by assumption ]
          | rewrite (run_decode_error name fs0 b b' content e) by assumption ]
        | rewrite (run_encode_error name fs0 b content e) by assumption ]
      | rewrite (run_read_error name fs0 b e) by assumption ]
    | rewrite (run_unreadable name fs0 b) by assumption ]
  | rewrite (run_no_file name fs0) by assumption ].

Lemma run_returns (name : os.name_t) (fs0 : FileSystem) :
  exists st, run name fs0 = Return tt st.
Proof.
  run_cases name fs0; eexists; reflexivity.
Qed.

Lemma split_unique (A : Type) (x : A) (a c l1 l2 : list A) :
  ~ In x a -> ~ In x c -> l1 ++ x :: l2 = a ++ x :: c -> l1 = a /\ l2 = c.
Proof.
  revert l1. induction a as [| y a IH]; intros l1 Ha Hc H.
  - destruct l1 as [| z l1]; cbn [app] in H.
    + injection H as ->. split; reflexivity.
    + injection H as -> H. exfalso. apply Hc. rewrite <- H.
      apply in_or_app. right. left. reflexivity.
  - destruct l1 as [| z l1]; cbn [app] in H.
    + injection H as -> _. exfalso. apply Ha. left. reflexivity.
    + injection H as -> H.
      destruct (IH l1) as [-> ->]; [| exact Hc | exact H | split; reflexivity].
      intros Hin. apply Ha. right. exact Hin.
Qed.

Lemma write_newlines_no_LF (linesep s : str) :
  ~ In LF s -> write_newlines linesep s = s.
Proof.
  unfold write_newlines. induction s as [| c s IH]; intros H; [reflexivity |].
  cbn [flat_map]. destruct (Z.eqb_spec c LF) as [-> |].
  - exfalso. apply H. left. reflexivity.
  - rewrite IH; [reflexivity |]. intros Hin. apply H. right. exact Hin.
Qed.

Lemma In_map_ord (x : byte) (b : bytes) : In (ord x) (map ord b) -> In x b.
Proof.
  intros H. apply in_map_iff in H. destruct H as (y & Hy & Hin).
  apply ord_inj in Hy. subst. exact Hin.
Qed.

Lemma map_chr8_ord (b : bytes) : map chr8 (map ord b) = b.
Proof.
  induction b as [| x b IH]; [reflexivity |].
  cbn [map]. rewrite chr8_ord, IH. reflexivity.
Qed.

Lemma universal_newlines_no_CR (s : str) : ~ In CR (universal_newlines s).
Proof.
  induction s as [| a | a b l IHl IHbl] using list_pair_ind.
  - intros [].
  - simpl. destruct (Z.eqb_spec a CR); cbn; unfold CR, LF in *; intuition lia.
  - change (universal_newlines (a :: b :: l))
      with (if a =? CR
            then LF :: (if b =? LF then universal_newlines l
                        else universal_newlines (b :: l))
            else a :: universal_newlines (b :: l)).
    destruct (Z.eqb_spec a CR); [destruct (b =? LF) |];
      intros [H | H]; try contradiction; unfold CR, LF in *; try lia;
      congruence.
Qed.

(** Reading back what was written gives the text that was written. *)
Lemma universal_write_newlines (name : os.name_t) (s : str) :
  ~ In CR s -> universal_newlines (write_newlines (os.linesep name) s) = s.
Proof.
  unfold write_newlines. induction s as [| c s IH]; intros H; [reflexivity |].
  assert (Hs : ~ In CR s) by (intros Hin; apply H; right; exact Hin).
  assert (Hc : c <> CR) by (intros ->; apply H; left; reflexivity).
  specialize (IH Hs). cbn [flat_map].
  destruct (Z.eqb_spec c LF) as [-> |].
  - destruct name; cbn [os.linesep app] in *.
    + change (universal_newlines (LF :: ?l)) with (LF :: universal_newlines l).
      rewrite IH. reflexivity.
    + change (universal_newlines (CR :: LF :: ?l)) with (LF :: universal_newlines l).
      rewrite IH. reflexivity.
  - cbn [app]. cbn [universal_newlines].
    destruct (Z.eqb_spec c CR); [contradiction |]. rewrite IH. reflexivity.
Qed.

(** ** What a run wrote *)

Lemma written_text (name : os.name_t) (fs0 : FileSystem) (s : str) :
  In (EvWrite s) (log (final (run name fs0))) -> transcoded fs0 s.
Proof.
  unfold transcoded.
  run_cases name fs0; cbn; intros H;
    repeat (destruct H as [H | H]; try discriminate H); try contradiction;
    injection H as <-; eauto 10.
Qed.

Lemma succeeded_disk (name : os.name_t) (fs0 : FileSystem) :
  In fixed_line (stdout (final (run name fs0))) ->
  exists fixed data,
    transcoded fs0 fixed /\ text_bytes name fixed = Ok data
    /\ disk (fs (final (run name fs0))) = Some data.
Proof.
  unfold transcoded. intros H. revert H.
  run_cases name fs0; cbn; intros H;
    repeat (destruct H as [H | H]; try discriminate H); try contradiction;
    eauto 12.
Qed.

Lemma transcoded_functional (fs0 fs0' : FileSystem) (s s' : str) :
  disk fs0 = disk fs0' -> transcoded fs0 s -> transcoded fs0' s' -> s = s'.
Proof.
  intros Hd (b & c & H1 & _ & H2 & H3) (b' & c' & H1' & _ & H2' & H3').
  congruence.
Qed.

(** ** When the file is touched *)

Lemma run_shape (name : os.name_t) (fs0 : FileSystem) :
  let st := final (run name fs0) in
  (fs st = fs0 /\ ~ In (EvOpen W) (log st) /\ forall fixed, ~ transcoded fs0 fixed)
  \/ exists fixed rest,
       transcoded fs0 fixed
       /\ log st = repair_log ++ EvOpen W :: rest
       /\ ~ In (EvOpen W) rest
       /\ (writable fs0 = false -> fs st = fs0).
Proof.
  unfold transcoded.
  run_cases name fs0; cbn;
    try (right; do 2 eexists;
         split; [do 2 eexists; repeat split; eassumption |];
         split; [reflexivity |];
         split; [cbn; intuition discriminate | intros; congruence]).
  all: left; split; [reflexivity |]; split; [intuition discriminate |];
    intros fixed0 (x & c & Hx & Hr' & Hc & Hr); try discriminate;
    injection Hx as <-; try congruence;
    assert (c = content) by congruence; subst c;
    unfold repair in Hr; rewrite Henc in Hr; congruence.
Qed.

(** Whatever precedes the opening of the file for writing is the transcode. *)
Lemma before_open_w (name : os.name_t) (fs0 : FileSystem) (l1 l2 : list event) :
  log (final (run name fs0)) = l1 ++ EvOpen W :: l2 ->
  l1 = repair_log /\ exists fixed, transcoded fs0 fixed.
Proof.
  intros H.
  destruct (run_shape name fs0)
    as [(_ & Hlog & _) | (fixed & rest & Ht & Hlog & Hrest & _)].
  - exfalso. apply Hlog. rewrite H. apply in_or_app. right. left. reflexivity.
  - rewrite Hlog in H. symmetry in H.
    destruct (split_unique _ (EvOpen W) repair_log rest l1 l2) as [-> _];
      try assumption.
    + cbn. intuition discriminate.
    + split; [reflexivity | exists fixed; exact Ht].
Qed.

(** ** Error reports *)

Lemma handlers_report (e : exn) (st : State) :
  handlers e st
  = Return tt {| fs := fs st; buffer := buffer st;
                 log := log st ++ [EvPrint (report e)] |}.
Proof. destruct e; reflexivity. Qed.

Lemma report_is_error_line (e : exn) : is_error_line (report e) = true.
Proof. destruct e; reflexivity. Qed.

(** ** The claims *)

(** The claim C1 as stated fails once the file has been opened for
    writing: on Windows, a file that fills its volume and ends in LF is
    truncated, grows by one byte when LF is written as CR LF, and the flush
    fails with its last byte unwritten. *)
Lemma C1_counterexample :
  let fs0 := {| disk := Some [x68; x69; x0a]; readable := true;
                writable := true; quota := Some 3%nat |} in
  (exists st, try_block os.nt (boot fs0) = Raise (OSError ENOSPC file_path) st)
  /\ run os.nt fs0
     = Return tt {| fs := with_disk (Some [x68; x69; x0d]) fs0; buffer := [];
                    log := repair_log
                           ++ [EvOpen W; EvWrite [0x68; 0x69; 0x0A];
                               EvPrint (other_error_line
                                          (OSError ENOSPC file_path))] |}
  /\ disk (fs (final (run os.nt fs0))) <> disk fs0.
Proof.
  cbv zeta. split; [eexists; reflexivity |]. split; [reflexivity |].
  vm_compute. discriminate.
Qed.

(** C1, as the code has it.  When the read, the re-encode or the re-decode
    does not succeed, or the file may not be opened for writing, the run
    leaves the file system as it was; and the file is opened for writing
    only after the whole transcode has succeeded in memory: everything the
    log holds before that point is the read, the two codec calls and the
    success line. *)
Theorem C1_unchanged_until_write_begins (name : os.name_t) (fs0 : FileSystem) :
  ((forall fixed, ~ transcoded fs0 fixed) \/ writable fs0 = false ->
   fs (final (run name fs0)) = fs0)
  /\ (forall l1 l2,
        log (final (run name fs0)) = l1 ++ EvOpen W :: l2 ->
        l1 = repair_log /\ exists fixed, transcoded fs0 fixed).
Proof.
  split; [| apply before_open_w].
  destruct (run_shape name fs0)
    as [(Hfs & _) | (fixed & rest & Ht & _ & _ & Hw)].
  - intros _. exact Hfs.
  - intros [Hno | Hden]; [exfalso; exact (Hno fixed Ht) | exact (Hw Hden)].
Qed.

Lemma C1_witness :
  fs (final (run os.nt (file_of [xc3; xa9; x74; xc3; xa9])))
  = file_of [xc3; xa9; x74; xc3; xa9]
  /\ (repair_log = repair_log /\ exists fixed, transcoded (file_of [x68; x69]) fixed).
Proof.
  split.
  - apply (proj1 (C1_unchanged_until_write_begins os.nt
                    (file_of [xc3; xa9; x74; xc3; xa9]))).
    left. intros fixed (b & content & Hb & _ & Hread & Hrep).
    injection Hb as <-. vm_compute in Hread. injection Hread as <-.
    vm_compute in Hrep. discriminate Hrep.
  - apply (proj2 (C1_unchanged_until_write_begins os.nt (file_of [x68; x69]))
             repair_log [EvWrite [0x68; 0x69]; EvPrint fixed_line]).
    reflexivity.
Defined.

(** C2.  Round-trip law: whenever the corruption [corrupt t] (the UTF-8
    bytes of [t] decoded as cp1252) is defined, repairing it with
    [.encode('cp1252').decode('utf-8')] gives back exactly [t].  Scenario: a
    file whose content is the UTF-8 text U+00C3 U+00A9 c o l e, the
    corruption of U+00E9 c o l e, is rewritten to hold the UTF-8 text
    U+00E9 c o l e. *)
Theorem C2_round_trip :
  (forall t m : str, corrupt t = Ok m -> repair m = Ok t)
  /\ corrupt ecole = Ok ecole_mojibake
  /\ forall (name : os.name_t) (fs0 : FileSystem) (b_in b_out : bytes),
       str_encode ecole_mojibake utf_8 = Ok b_in ->
       str_encode ecole utf_8 = Ok b_out ->
       disk fs0 = Some b_in -> readable fs0 = true -> writable fs0 = true ->
       fits (quota fs0) b_out ->
       run name fs0
       = Return tt {| fs := with_disk (Some b_out) fs0; buffer := [];
                      log := repair_log
                             ++ [EvOpen W; EvWrite ecole; EvPrint fixed_line] |}.
Proof.
  split; [exact repair_corrupt |]. split; [reflexivity |].
  intros name fs0 b_in b_out Hin Hout Hdisk Hreadable Hwritable Hfit.
  vm_compute in Hin. injection Hin as <-.
  vm_compute in Hout. injection Hout as <-.
  apply (run_written name fs0 [xc3; x83; xc2; xa9; x63; x6f; x6c; x65]
           [xc3; xa9; x63; x6f; x6c; x65] ecole_mojibake ecole); try assumption.
  - reflexivity.
  - reflexivity.
  - destruct name; reflexivity.
Qed.

Lemma C2_witness :
  repair [0xE2; 0x201A; 0xAC; 0xC3; 0xA9] = Ok [0x20AC; 0xE9]
  /\ run os.nt (file_of [xc3; x83; xc2; xa9; x63; x6f; x6c; x65])
     = Return tt {| fs := file_of [xc3; xa9; x63; x6f; x6c; x65]; buffer := [];
                    log := repair_log
                           ++ [EvOpen W; EvWrite ecole; EvPrint fixed_line] |}.
Proof.
  split.
  - apply (proj1 C2_round_trip [0x20AC; 0xE9] [0xE2; 0x201A; 0xAC; 0xC3; 0xA9]).
    reflexivity.
  - apply (proj2 (proj2 C2_round_trip) os.nt
             (file_of [xc3; x83; xc2; xa9; x63; x6f; x6c; x65])
             [xc3; x83; xc2; xa9; x63; x6f; x6c; x65]
             [xc3; xa9; x63; x6f; x6c; x65]);
      first [reflexivity | exact I].
Defined.

(** C3.  When the text decoded from the file holds a character that cp1252
    cannot represent, the run ends at [content.encode('cp1252')] with a
    [UnicodeEncodeError], prints the encode-stage line for it and nothing
    else, and leaves the file system as it was. *)
Theorem C3_unrepresentable_character
    (name : os.name_t) (fs0 : FileSystem) (b : bytes) (t : str) :
  disk fs0 = Some b -> readable fs0 = true ->
  bytes_decode b utf_8 = Ok t ->
  Exists (fun c => Cp1252.encoding_table c = None) t ->
  exists u,
    let e := UnicodeEncodeError "charmap" (universal_newlines t) u in
    str_encode (universal_newlines t) cp1252 = Err e
    /\ run name fs0
       = Return tt {| fs := fs0; buffer := [];
                      log := [EvOpen R; EvRead; EvEncode cp1252;
                              EvPrint (encode_error_line e)] |}.
Proof.
  intros Hdisk Hreadable Hb Ht.
  assert (Hc : Exists (fun c => Cp1252.encoding_table c = None)
                      (universal_newlines t)).
  { apply universal_newlines_Exists; [| | exact Ht]; vm_compute; discriminate. }
  destruct (cp1252_encode_unencodable _ Hc 0%nat) as [u Hu].
  exists u. cbv zeta.
  assert (He : str_encode (universal_newlines t) cp1252
               = Err (UnicodeEncodeError "charmap" (universal_newlines t) u)).
  { unfold str_encode. rewrite Hu. reflexivity. }
  split; [exact He |].
  apply (run_encode_error name fs0 b (universal_newlines t)); try assumption.
  unfold read_text. rewrite Hb. reflexivity.
Qed.

Lemma C3_witness :
  exists u,
    let e := UnicodeEncodeError "charmap" (universal_newlines [0x20AC; 0x4E2D]) u in
    str_encode (universal_newlines [0x20AC; 0x4E2D]) cp1252 = Err e
    /\ run os.nt (file_of [xe2; x82; xac; xe4; xb8; xad])
       = Return tt {| fs := file_of [xe2; x82; xac; xe4; xb8; xad]; buffer := [];
                      log := [EvOpen R; EvRead; EvEncode cp1252;
                              EvPrint (encode_error_line e)] |}.
Proof.
  apply (C3_unrepresentable_character os.nt
           (file_of [xe2; x82; xac; xe4; xb8; xad])
           [xe2; x82; xac; xe4; xb8; xad] [0x20AC; 0x4E2D]).
  - reflexivity.
  - reflexivity.
  - reflexivity.
  - apply Exists_cons_tl. apply Exists_cons_hd. reflexivity.
Defined.

(** C4.  When the text read from the file re-encodes under cp1252 to bytes
    that are not valid UTF-8, the run ends at [.decode('utf-8')] with a
    [UnicodeDecodeError], prints the decode-stage line for it and nothing
    else, and leaves the file system as it was. *)
Theorem C4_invalid_after_reencoding
    (name : os.name_t) (fs0 : FileSystem) (b b' : bytes) (content : str) (e : exn) :
  disk fs0 = Some b -> readable fs0 = true ->
  read_text b = Ok content ->
  str_encode content cp1252 = Ok b' ->
  bytes_decode b' utf_8 = Err e ->
  (exists u, e = UnicodeDecodeError "utf-8" b' u)
  /\ run name fs0
     = Return tt {| fs := fs0; buffer := [];
                    log := [EvOpen R; EvRead; EvEncode cp1252; EvDecode utf_8;
                            EvPrint (decode_error_line e)] |}.
Proof.
  intros Hdisk Hreadable Hread Henc Hdec. split.
  - unfold bytes_decode in Hdec.
    destruct (Utf8.decode 0 b') as [s | u]; [discriminate |].
    injection Hdec as <-. exists u. reflexivity.
  - apply (run_decode_error name fs0 b b' content e); assumption.
Qed.

Lemma C4_witness :
  let e := UnicodeDecodeError "utf-8" [xe9; x74; xe9]
             (UErr 0 1 "invalid continuation byte") in
  (exists u, e = UnicodeDecodeError "utf-8" [xe9; x74; xe9] u)
  /\ run os.nt (file_of [xc3; xa9; x74; xc3; xa9])
     = Return tt {| fs := file_of [xc3; xa9; x74; xc3; xa9]; buffer := [];
                    log := [EvOpen R; EvRead; EvEncode cp1252; EvDecode utf_8;
                            EvPrint (decode_error_line e)] |}.
Proof.
  apply (C4_invalid_after_reencoding os.nt (file_of [xc3; xa9; x74; xc3; xa9])
           [xc3; xa9; x74; xc3; xa9] [xe9; x74; xe9] [0xE9; 0x74; 0xE9]);
    reflexivity.
Defined.

(** C5.  When the bytes of the file are not valid UTF-8, the run ends at
    [f.read()] with a [UnicodeDecodeError]: the log shows the file opened
    for reading, the read and the decode-stage line, so no [encode] or
    [decode] call was made, the file was never opened for writing and the
    file system is as it was. *)
Theorem C5_invalid_input
    (name : os.name_t) (fs0 : FileSystem) (b : bytes) (e : exn) :
  disk fs0 = Some b -> readable fs0 = true ->
  bytes_decode b utf_8 = Err e ->
  let st := final (run name fs0) in
  (exists u, e = UnicodeDecodeError "utf-8" b u)
  /\ run name fs0 = Return tt st
  /\ log st = [EvOpen R; EvRead; EvPrint (decode_error_line e)]
  /\ (forall c, ~ In (EvEncode c) (log st) /\ ~ In (EvDecode c) (log st))
  /\ ~ In (EvOpen W) (log st)
  /\ (forall s, ~ In (EvWrite s) (log st))
  /\ fs st = fs0.
Proof.
  intros Hdisk Hreadable Hb.
  assert (Hread : read_text b = Err e) by (unfold read_text; rewrite Hb; reflexivity).
  rewrite (run_read_error name fs0 b e Hdisk Hreadable Hread). cbn.
  repeat split; try (intros H; cbn in H; intuition discriminate).
  unfold bytes_decode in Hb.
  destruct (Utf8.decode 0 b) as [s | u]; [discriminate |].
  injection Hb as <-. exists u. reflexivity.
Qed.

Lemma C5_witness :
  let e := UnicodeDecodeError "utf-8" [x63; x61; x66; xe9]
             (UErr 3 4 "unexpected end of data") in
  let st := final (run os.nt (file_of [x63; x61; x66; xe9])) in
  (exists u, e = UnicodeDecodeError "utf-8" [x63; x61; x66; xe9] u)
  /\ run os.nt (file_of [x63; x61; x66; xe9]) = Return tt st
  /\ log st = [EvOpen R; EvRead; EvPrint (decode_error_line e)]
  /\ (forall c, ~ In (EvEncode c) (log st) /\ ~ In (EvDecode c) (log st))
  /\ ~ In (EvOpen W) (log st)
  /\ (forall s, ~ In (EvWrite s) (log st))
  /\ fs st = file_of [x63; x61; x66; xe9].
Proof.
  apply (C5_invalid_input os.nt (file_of [x63; x61; x66; xe9]) [x63; x61; x66; xe9]);
    reflexivity.
Defined.

(** The claim C6 as stated fails: a file that is not valid UTF-8 (the one
    byte 0xFF) and a file whose text re-encodes to that same byte (U+00FF)
    fail at different stages and print the same report. *)
Lemma C6_counterexample :
  let e := UnicodeDecodeError "utf-8" [xff] (UErr 0 1 "invalid start byte") in
  read_text [xff] = Err e
  /\ (read_text [xc3; xbf] = Ok [0xFF]
      /\ str_encode [0xFF] cp1252 = Ok [xff]
      /\ bytes_decode [xff] utf_8 = Err e)
  /\ stdout (final (run os.nt (file_of [xff]))) = [decode_error_line e]
  /\ stdout (final (run os.nt (file_of [xc3; xbf]))) = [decode_error_line e].
Proof.
  cbv zeta. repeat split; reflexivity.
Qed.

(** C6, as the code has it.  A decode error at the read and a decode error
    at the re-decode are both reported by the one decode-stage line, with
    the exception as its only field; that line differs from the
    encode-stage line and from the line for other errors. *)
Theorem C6_one_report_for_both_decode_stages
    (name : os.name_t) (fs0 : FileSystem) (b : bytes) :
  disk fs0 = Some b -> readable fs0 = true ->
  (forall e, bytes_decode b utf_8 = Err e ->
             stdout (final (run name fs0)) = [decode_error_line e])
  /\ (forall content b' e,
         read_text b = Ok content -> str_encode content cp1252 = Ok b' ->
         bytes_decode b' utf_8 = Err e ->
         stdout (final (run name fs0)) = [decode_error_line e])
  /\ (forall e e', decode_error_line e <> encode_error_line e'
                   /\ decode_error_line e <> other_error_line e').
Proof.
  intros Hdisk Hreadable. split; [| split].
  - intros e He.
    assert (Hread : read_text b = Err e) by (unfold read_text; rewrite He; reflexivity).
    rewrite (run_read_error name fs0 b e Hdisk Hreadable Hread). reflexivity.
  - intros content b' e Hread Henc Hdec.
    rewrite (run_decode_error name fs0 b b' content e); try assumption.
    reflexivity.
  - intros e e'. split; discriminate.
Qed.

Lemma C6_witness :
  let e := UnicodeDecodeError "utf-8" [xff] (UErr 0 1 "invalid start byte") in
  stdout (final (run os.posix (file_of [xff]))) = [decode_error_line e]
  /\ stdout (final (run os.posix (file_of [xc3; xbf]))) = [decode_error_line e].
Proof.
  split.
  - apply (proj1 (C6_one_report_for_both_decode_stages os.posix (file_of [xff])
                    [xff] eq_refl eq_refl)).
    reflexivity.
  - apply (proj1 (proj2 (C6_one_report_for_both_decode_stages os.posix
                           (file_of [xc3; xbf]) [xc3; xbf] eq_refl eq_refl))
             [0xFF] [xff]);
      reflexivity.
Defined.

(** C7 as stated fails on ASCII files with line ends: on POSIX a lone CR
    comes back as LF, on Windows a lone LF comes back as CR LF. *)
Lemma C7_counterexample :
  (Forall (fun x => is_ascii (ord x)) [x61; x0d; x62]
   /\ run os.posix (file_of [x61; x0d; x62])
      = Return tt {| fs := file_of [x61; x0a; x62]; buffer := [];
                     log := repair_log
                            ++ [EvOpen W; EvWrite [0x61; 0x0A; 0x62];
                                EvPrint fixed_line] |}
   /\ disk (fs (final (run os.posix (file_of [x61; x0d; x62]))))
      <> disk (file_of [x61; x0d; x62]))
  /\ (Forall (fun x => is_ascii (ord x)) [x61; x0a; x62]
      /\ run os.nt (file_of [x61; x0a; x62])
         = Return tt {| fs := file_of [x61; x0d; x0a; x62]; buffer := [];
                        log := repair_log
                               ++ [EvOpen W; EvWrite [0x61; 0x0A; 0x62];
                                   EvPrint fixed_line] |}
      /\ disk (fs (final (run os.nt (file_of [x61; x0a; x62]))))
         <> disk (file_of [x61; x0a; x62])).
Proof.
  split; (split; [| split]).
  - repeat (constructor; [vm_compute; split; [discriminate | reflexivity] |]).
    constructor.
  - reflexivity.
  - vm_compute. discriminate.
  - repeat (constructor; [vm_compute; split; [discriminate | reflexivity] |]).
    constructor.
  - reflexivity.
  - vm_compute. discriminate.
Qed.

(** C7, as the code has it.  For a file of ASCII bytes the repair transform
    is the identity on the text read, and when the file can be read and
    rewritten the run succeeds and leaves the text read, with each LF
    written as [os.linesep]; the text read is the input with CR LF and lone
    CR turned into LF.  Read back the same way, the output gives the text
    that was read from the input.  Byte for byte, the output equals the
    input when the input holds no CR and either [os.linesep] is LF or the
    input holds no LF. *)
Theorem C7_ascii_up_to_newlines
    (name : os.name_t) (fs0 : FileSystem) (b : bytes) :
  disk fs0 = Some b -> readable fs0 = true -> writable fs0 = true ->
  Forall (fun x => is_ascii (ord x)) b ->
  let content := universal_newlines (map ord b) in
  let data := map chr8 (write_newlines (os.linesep name) content) in
  fits (quota fs0) data ->
  read_text b = Ok content
  /\ repair content = Ok content
  /\ run name fs0
     = Return tt {| fs := with_disk (Some data) fs0; buffer := [];
                    log := repair_log
                           ++ [EvOpen W; EvWrite content; EvPrint fixed_line] |}
  /\ read_text data = Ok content
  /\ (~ In x0d b -> name = os.posix \/ ~ In x0a b -> data = b).
Proof.
  intros Hdisk Hreadable Hwritable Hb content data Hfit.
  assert (Hread : read_text b = Ok content).
  { unfold read_text, bytes_decode. rewrite (utf8_decode_ascii_bytes b Hb).
    reflexivity. }
  assert (Hs : Forall is_ascii content).
  { apply universal_newlines_Forall; [unfold is_ascii, LF; lia |].
    apply Forall_map. exact Hb. }
  assert (Hrep : repair content = Ok content) by (apply repair_ascii; exact Hs).
  assert (Htext : text_bytes name content = Ok data).
  { unfold text_bytes, str_encode.
    rewrite (utf8_encode_ascii _ (write_newlines_ascii name content Hs)).
    reflexivity. }
  repeat split; try assumption.
  - apply (run_written name fs0 b data content content); assumption.
  - unfold read_text, bytes_decode, data.
    rewrite (utf8_decode_ascii _ (write_newlines_ascii name content Hs)).
    rewrite universal_write_newlines; [reflexivity |].
    apply universal_newlines_no_CR.
  - intros Hcr Hlf. unfold data, content.
    rewrite universal_newlines_id.
    + destruct Hlf as [-> | Hlf].
      * rewrite write_newlines_posix. apply map_chr8_ord.
      * rewrite write_newlines_no_LF; [apply map_chr8_ord |].
        intros Hin. apply Hlf. apply In_map_ord. exact Hin.
    + intros Hin. apply Hcr. apply In_map_ord. exact Hin.
Qed.

(** The scenario of the spec: "hello" is left as it is on either platform. *)
Lemma C7_witness :
  read_text [x68; x65; x6c; x6c; x6f] = Ok [0x68; 0x65; 0x6C; 0x6C; 0x6F]
  /\ repair [0x68; 0x65; 0x6C; 0x6C; 0x6F] = Ok [0x68; 0x65; 0x6C; 0x6C; 0x6F]
  /\ run os.nt (file_of [x68; x65; x6c; x6c; x6f])
     = Return tt {| fs := file_of [x68; x65; x6c; x6c; x6f]; buffer := [];
                    log := repair_log
                           ++ [EvOpen W; EvWrite [0x68; 0x65; 0x6C; 0x6C; 0x6F];
                               EvPrint fixed_line] |}
  /\ read_text [x68; x65; x6c; x6c; x6f] = Ok [0x68; 0x65; 0x6C; 0x6C; 0x6F]
  /\ (~ In x0d [x68; x65; x6c; x6c; x6f] ->
      os.nt = os.posix \/ ~ In x0a [x68; x65; x6c; x6c; x6f] ->
      [x68; x65; x6c; x6c; x6f] = [x68; x65; x6c; x6c; x6f]).
Proof.
  apply (C7_ascii_up_to_newlines os.nt (file_of [x68; x65; x6c; x6c; x6f])
           [x68; x65; x6c; x6c; x6f]).
  - reflexivity.
  - reflexivity.
  - reflexivity.
  - repeat (constructor; [vm_compute; split; [discriminate | reflexivity] |]).
    constructor.
  - exact I.
Defined.

(** C8.  No exception leaves the script: every run returns normally.  When
    the [try] block raises, the output holds exactly one error line, the
    one the matching [except] clause prints for that exception.  When the
    path does not exist the run prints the line for other errors, and the
    file is neither opened for writing nor written. *)
Theorem C8_errors_handled_locally (name : os.name_t) (fs0 : FileSystem) :
  (exists st, run name fs0 = Return tt st)
  /\ (forall e st',
         try_block name (boot fs0) = Raise e st' ->
         filter is_error_line (stdout (final (run name fs0))) = [report e])
  /\ (disk fs0 = None ->
      let st := final (run name fs0) in
      stdout st = [other_error_line (OSError ENOENT file_path)]
      /\ ~ In (EvOpen W) (log st)
      /\ (forall s, ~ In (EvWrite s) (log st))
      /\ fs st = fs0).
Proof.
  split; [apply run_returns |]. split.
  - intros e st' H.
    assert (Hrun : run name fs0
                   = Return tt {| fs := fs st'; buffer := buffer st';
                                  log := log st' ++ [EvPrint (report e)] |}).
    { unfold run, main, try_except. rewrite H. apply handlers_report. }
    pose proof (report_is_error_line e) as Hrep.
    revert Hrun.
    run_cases name fs0; intros Hrun; injection Hrun as _ _ Hlog;
      apply (f_equal (fun l => last l EvRead)) in Hlog;
      rewrite last_last in Hlog; cbn in Hlog; injection Hlog as Hlog;
      rewrite <- Hlog in *; try discriminate Hrep; reflexivity.
  - intros Hdisk. rewrite (run_no_file name fs0 Hdisk). cbn.
    repeat split; try (intros H; cbn in H; intuition discriminate).
Qed.

Lemma C8_witness :
  let fs0 := {| disk := None; readable := true; writable := true; quota := None |} in
  filter is_error_line (stdout (final (run os.nt fs0)))
  = [report (OSError ENOENT file_path)]
  /\ (let st := final (run os.nt fs0) in
      stdout st = [other_error_line (OSError ENOENT file_path)]
      /\ ~ In (EvOpen W) (log st)
      /\ (forall s, ~ In (EvWrite s) (log st))
      /\ fs st = fs0).
Proof.
  cbv zeta. split.
  - apply (proj1 (proj2 (C8_errors_handled_locally os.nt
                           {| disk := None; readable := true; writable := true;
                              quota := None |}))
             (OSError ENOENT file_path)
             {| fs := {| disk := None; readable := true; writable := true;
                         quota := None |};
                buffer := []; log := [EvOpen R] |}).
    reflexivity.
  - apply (proj2 (proj2 (C8_errors_handled_locally os.nt
                           {| disk := None; readable := true; writable := true;
                              quota := None |}))).
    reflexivity.
Defined.

(** C9.  Whenever a run opens the file for writing, the line
    "Successfully decoded content." has been printed before that point; it
    is therefore on the output of every such run, whether the write then
    succeeds or fails. *)
Theorem C9_decoded_line_precedes_write
    (name : os.name_t) (fs0 : FileSystem) (l1 l2 : list event) :
  log (final (run name fs0)) = l1 ++ EvOpen W :: l2 ->
  In (EvPrint decoded_line) l1
  /\ In decoded_line (stdout (final (run name fs0))).
Proof.
  intros H. destruct (before_open_w name fs0 l1 l2 H) as [-> _].
  assert (Hin : In (EvPrint decoded_line) repair_log).
  { cbn. tauto. }
  split; [exact Hin |].
  unfold stdout. rewrite H. apply in_flat_map.
  exists (EvPrint decoded_line). split.
  - apply in_or_app. left. exact Hin.
  - left. reflexivity.
Qed.

(** A run whose write fails: the file may not be opened for writing. *)
Lemma C9_witness :
  In (EvPrint decoded_line) repair_log
  /\ In decoded_line
        (stdout (final (run os.nt {| disk := Some [x68; x69; x0a]; readable := true;
                                     writable := false; quota := None |}))).
Proof.
  apply (C9_decoded_line_precedes_write os.nt
           {| disk := Some [x68; x69; x0a]; readable := true;
              writable := false; quota := None |}
           repair_log
           [EvPrint (other_error_line (OSError EACCES file_path))]).
  reflexivity.
Defined.

(** C10 as stated fails across platforms: the same bytes a LF b are
    repaired successfully on POSIX and on Windows, and the file is left
    holding a LF b on the one and a CR LF b on the other. *)
Lemma C10_counterexample :
  let fs0 := file_of [x61; x0a; x62] in
  In fixed_line (stdout (final (run os.posix fs0)))
  /\ In fixed_line (stdout (final (run os.nt fs0)))
  /\ In (EvWrite [0x61; 0x0A; 0x62]) (log (final (run os.posix fs0)))
  /\ In (EvWrite [0x61; 0x0A; 0x62]) (log (final (run os.nt fs0)))
  /\ disk (fs (final (run os.posix fs0))) = Some [x61; x0a; x62]
  /\ disk (fs (final (run os.nt fs0))) = Some [x61; x0d; x0a; x62]
  /\ disk (fs (final (run os.posix fs0))) <> disk (fs (final (run os.nt fs0))).
Proof.
  cbv zeta. repeat split; try (vm_compute; tauto).
  vm_compute. discriminate.
Qed.

(** C10, as the code has it.  Two runs on files with the same bytes hand
    the same repaired text to [f.write], whatever the platform of each run;
    and when both succeed under the same [os.linesep] they leave the same
    bytes on disk.  The written content depends on the content of the file
    and on [os.linesep], which each LF of the repaired text is written as,
    and on nothing else. *)
Theorem C10_deterministic_given_linesep
    (name1 name2 : os.name_t) (fs1 fs2 : FileSystem) :
  disk fs1 = disk fs2 ->
  (forall s1 s2,
      In (EvWrite s1) (log (final (run name1 fs1))) ->
      In (EvWrite s2) (log (final (run name2 fs2))) -> s1 = s2)
  /\ (os.linesep name1 = os.linesep name2 ->
      In fixed_line (stdout (final (run name1 fs1))) ->
      In fixed_line (stdout (final (run name2 fs2))) ->
      disk (fs (final (run name1 fs1))) = disk (fs (final (run name2 fs2)))).
Proof.
  intros Hd. split.
  - intros s1 s2 H1 H2.
    apply (transcoded_functional fs1 fs2 s1 s2 Hd);
      eapply written_text; eassumption.
  - intros Hsep H1 H2.
    destruct (succeeded_disk name1 fs1 H1) as (f1 & d1 & T1 & B1 & ->).
    destruct (succeeded_disk name2 fs2 H2) as (f2 & d2 & T2 & B2 & ->).
    assert (f1 = f2) by (apply (transcoded_functional fs1 fs2 f1 f2 Hd); assumption).
    subst f2. unfold text_bytes in B1, B2. rewrite Hsep in B1. congruence.
Qed.

(** The repaired text of the scenario is the same on POSIX and on Windows;
    two runs on Windows, one of them on a volume with a limit, leave the
    same bytes. *)
Lemma C10_witness :
  ecole = ecole
  /\ disk (fs (final (run os.nt (file_of [xc3; x83; xc2; xa9; x63; x6f; x6c; x65]))))
     = disk (fs (final (run os.nt
                           {| disk := Some [xc3; x83; xc2; xa9; x63; x6f; x6c; x65];
                              readable := true; writable := true;
                              quota := Some 64%nat |}))).
Proof.
  split.
  - apply (proj1 (C10_deterministic_given_linesep os.posix os.nt
                    (file_of [xc3; x83; xc2; xa9; x63; x6f; x6c; x65])
                    {| disk := Some [xc3; x83; xc2; xa9; x63; x6f; x6c; x65];
                       readable := true; writable := true; quota := Some 64%nat |}
                    eq_refl));
      vm_compute; tauto.
  - apply (proj2 (C10_deterministic_given_linesep os.nt os.nt
                    (file_of [xc3; x83; xc2; xa9; x63; x6f; x6c; x65])
                    {| disk := Some [xc3; x83; xc2; xa9; x63; x6f; x6c; x65];
                       readable := true; writable := true; quota := Some 64%nat |}
                    eq_refl));
      first [reflexivity | vm_compute; tauto].
Defined.

(** * Further properties of the script *)

(** ** The codecs are inverse to each other in both directions *)

Lemma cp1252_decoding_encoding (c : codepoint) (b : byte) :
  Cp1252.encoding_table c = Some b -> Cp1252.decoding_table b = Some c.
Proof.
  unfold Cp1252.encoding_table.
  destruct (Z.leb_spec 0 c); cbn [andb].
  - destruct (Z.ltb_spec c 0x80).
    + intros H'. injection H' as <-. unfold Cp1252.decoding_table.
      rewrite ord_chr8 by lia. destruct (Z.ltb_spec c 0x80); [reflexivity | lia].
    + destruct (Z.leb_spec 0xA0 c); cbn [andb].
      * destruct (Z.leb_spec c 0xFF).
        -- intros H'. injection H' as <-. unfold Cp1252.decoding_table.
           rewrite ord_chr8 by lia.
           destruct (Z.ltb_spec c 0x80); [lia |].
           destruct (Z.ltb_spec c 0xA0); [lia | reflexivity].
        -- destruct c as [| p | p]; try discriminate.
           repeat (destruct p as [p | p |]; try discriminate);
             intros H'; injection H' as <-; reflexivity.
      * destruct c as [| p | p]; try discriminate.
        repeat (destruct p as [p | p |]; try discriminate);
          intros H'; injection H' as <-; reflexivity.
  - destruct c as [| p | p]; try lia.
    repeat (destruct p as [p | p |]; try discriminate).
Qed.

Lemma cp1252_decode_encode (s : str) :
  forall (p : nat) (b : bytes),
    Cp1252.encode p s = Ok b -> forall q, Cp1252.decode q b = Ok s.
Proof.
  induction s as [| c s IH]; intros p b H q.
  - simpl in H. injection H as <-. reflexivity.
  - simpl in H. destruct (Cp1252.encoding_table c) as [x |] eqn:Hc; [| discriminate].
    apply cons_ok_Ok in H. destruct H as (b' & Hs & ->).
    simpl. rewrite (cp1252_decoding_encoding _ _ Hc), (IH _ _ Hs). reflexivity.
Qed.

Lemma utf8_encode_char_2 (b1 b2 : byte) :
  0xC2 <= ord b1 < 0xE0 -> 0x80 <= ord b2 < 0xC0 ->
  Utf8.encode_char (Z.shiftl (ord b1) 6 + ord b2 - (Z.shiftl 0xC0 6 + 0x80))
  = [b1; b2].
Proof.
  intros H1 H2. rewrite !shiftl_6. unfold Utf8.encode_char.
  rewrite !land_3F, !shiftr_6.
  set (ch := ord b1 * 64 + ord b2 - (192 * 64 + 128)).
  assert (Hq : ch / 64 = ord b1 - 192) by (unfold ch; div_lia).
  assert (Hr : ch mod 64 = ord b2 - 128) by (unfold ch; div_lia).
  rewrite Hq, Hr, lor_C0, lor_80 by lia.
  destruct (Z.ltb_spec ch 0x80); [unfold ch in *; lia |].
  destruct (Z.ltb_spec ch 0x800); [| unfold ch in *; lia].
  replace (192 + (ord b1 - 192)) with (ord b1) by lia.
  replace (128 + (ord b2 - 128)) with (ord b2) by lia.
  rewrite !chr8_ord. reflexivity.
Qed.

Lemma utf8_encode_char_3 (b1 b2 b3 : byte) :
  0xE0 <= ord b1 < 0xF0 -> 0x80 <= ord b2 < 0xC0 -> 0x80 <= ord b3 < 0xC0 ->
  (ord b1 = 0xE0 -> 0xA0 <= ord b2) ->
  Utf8.encode_char (Z.shiftl (ord b1) 12 + Z.shiftl (ord b2) 6 + ord b3
                    - (Z.shiftl 0xE0 12 + Z.shiftl 0x80 6 + 0x80))
  = [b1; b2; b3].
Proof.
  intros H1 H2 H3 H4. rewrite !shiftl_6, !shiftl_12. unfold Utf8.encode_char.
  rewrite !land_3F, !shiftr_6, !shiftr_12.
  set (ch := ord b1 * 4096 + ord b2 * 64 + ord b3 - (224 * 4096 + 128 * 64 + 128)).
  assert (Hq : ch / 4096 = ord b1 - 224) by (unfold ch; div_lia).
  assert (Hm : (ch / 64) mod 64 = ord b2 - 128) by (unfold ch; div_lia).
  assert (Hr : ch mod 64 = ord b3 - 128) by (unfold ch; div_lia).
  rewrite Hq, Hm, Hr, lor_E0, !lor_80 by lia.
  destruct (Z.ltb_spec ch 0x80); [unfold ch in *; lia |].
  destruct (Z.ltb_spec ch 0x800); [unfold ch in *; lia |].
  destruct (Z.ltb_spec ch 0x10000); [| unfold ch in *; lia].
  replace (224 + (ord b1 - 224)) with (ord b1) by lia.
  replace (128 + (ord b2 - 128)) with (ord b2) by lia.
  replace (128 + (ord b3 - 128)) with (ord b3) by lia.
  rewrite !chr8_ord. reflexivity.
Qed.

Lemma utf8_encode_char_4 (b1 b2 b3 b4 : byte) :
  0xF0 <= ord b1 < 0xF5 -> 0x80 <= ord b2 < 0xC0 -> 0x80 <= ord b3 < 0xC0 ->
  0x80 <= ord b4 < 0xC0 -> (ord b1 = 0xF0 -> 0x90 <= ord b2) ->
  Utf8.encode_char (Z.shiftl (ord b1) 18 + Z.shiftl (ord b2) 12
                    + Z.shiftl (ord b3) 6 + ord b4
                    - (Z.shiftl 0xF0 18 + Z.shiftl 0x80 12 + Z.shiftl 0x80 6 + 0x80))
  = [b1; b2; b3; b4].
Proof.
  intros H1 H2 H3 H4 H5. rewrite !shiftl_6, !shiftl_12, !shiftl_18.
  unfold Utf8.encode_char.
  rewrite !land_3F, !shiftr_6, !shiftr_12, !shiftr_18.
  set (ch := ord b1 * 262144 + ord b2 * 4096 + ord b3 * 64 + ord b4
             - (240 * 262144 + 128 * 4096 + 128 * 64 + 128)).
  assert (Hq : ch / 262144 = ord b1 - 240) by (unfold ch; div_lia).
  assert (Hn : (ch / 4096) mod 64 = ord b2 - 128) by (unfold ch; div_lia).
  assert (Hm : (ch / 64) mod 64 = ord b3 - 128) by (unfold ch; div_lia).
  assert (Hr : ch mod 64 = ord b4 - 128) by (unfold ch; div_lia).
  rewrite Hq, Hn, Hm, Hr, lor_F0, !lor_80 by lia.
  destruct (Z.ltb_spec ch 0x80); [unfold ch in *; lia |].
  destruct (Z.ltb_spec ch 0x800); [unfold ch in *; lia |].
  destruct (Z.ltb_spec ch 0x10000); [unfold ch in *; lia |].
  replace (240 + (ord b1 - 240)) with (ord b1) by lia.
  replace (128 + (ord b2 - 128)) with (ord b2) by lia.
  replace (128 + (ord b3 - 128)) with (ord b3) by lia.
  replace (128 + (ord b4 - 128)) with (ord b4) by lia.
  rewrite !chr8_ord. reflexivity.
Qed.

Lemma utf8_encode_char_1 (b1 : byte) :
  ord b1 < 0x80 -> Utf8.encode_char (ord b1) = [b1].
Proof.
  intros H. unfold Utf8.encode_char.
  destruct (Z.ltb_spec (ord b1) 0x80); [| lia]. rewrite chr8_ord. reflexivity.
Qed.

Lemma utf8_encode_decode_bounded (n : nat) :
  forall (b : bytes) (p : nat) (s : str),
    (length b <= n)%nat -> Utf8.decode p b = Ok s ->
    forall q, Utf8.encode q s = Ok b.
Proof.
  induction n as [| n IH]; intros b p s Hn H q.
  - destruct b; [| cbn in Hn; lia]. injection H as <-. reflexivity.
  - pose proof (utf8_decode_encodable _ b p s (le_n _) H) as Hf.
    destruct b as [| b1 b]; [injection H as <-; reflexivity |].
    cbn [Utf8.decode] in H. cbv zeta in H. break_tests H;
      apply cons_ok_Ok in H; destruct H as (s' & Hs' & ->);
      pose proof (Forall_inv Hf) as Hc; cbv beta in Hc;
      cbn [Utf8.encode]; rewrite Hc;
      rewrite (fun Hlen => IH _ _ _ Hlen Hs' (q + 1)%nat)
        by (cbn [length] in Hn |- *; lia);
      clear Hn IH Hf Hc Hs';
      repeat match goal with
             | x : byte |- _ => pose proof (ord_range x); revert x
             end; intros;
      to_Prop;
      repeat match goal with
             | H : (_ <? _) = true |- _ => apply Z.ltb_lt in H
             | H : (_ <? _) = false |- _ => apply Z.ltb_ge in H
             | H : (_ <=? _) = true |- _ => apply Z.leb_le in H
             | H : (_ =? _) = false |- _ => apply Z.eqb_neq in H
             | H : (_ =? _) = true |- _ => apply Z.eqb_eq in H
             end.
    + rewrite utf8_encode_char_1 by lia. reflexivity.
    + rewrite utf8_encode_char_2 by lia. reflexivity.
    + rewrite utf8_encode_char_3 by lia. reflexivity.
    + rewrite utf8_encode_char_3 by lia. reflexivity.
    + rewrite utf8_encode_char_4 by lia. reflexivity.
    + rewrite utf8_encode_char_4 by lia. reflexivity.
Qed.

Lemma utf8_encode_decode (b : bytes) (p q : nat) (s : str) :
  Utf8.decode p b = Ok s -> Utf8.encode q s = Ok b.
Proof. intros H. exact (utf8_encode_decode_bounded _ b p s (le_n _) H q). Qed.

Lemma corrupt_repair (m t : str) : repair m = Ok t -> corrupt t = Ok m.
Proof.
  unfold corrupt, repair, str_encode, bytes_decode. intros H.
  destruct (Cp1252.encode 0 m) as [b |] eqn:Hm; [| discriminate].
  destruct (Utf8.decode 0 b) as [t' |] eqn:Hb; [| discriminate].
  injection H as <-.
  rewrite (utf8_encode_decode _ _ 0%nat _ Hb), (cp1252_decode_encode _ _ _ Hm).
  reflexivity.
Qed.

(** ** Lengths *)

Lemma cp1252_decode_length (b : bytes) :
  forall (p : nat) (s : str), Cp1252.decode p b = Ok s -> length s = length b.
Proof.
  induction b as [| x b IH]; intros p s H.
  - injection H as <-. reflexivity.
  - simpl in H. destruct (Cp1252.decoding_table x); [| discriminate].
    apply cons_ok_Ok in H. destruct H as (s' & Hs & ->).
    cbn [length]. rewrite (IH _ _ Hs). reflexivity.
Qed.

Lemma utf8_encode_char_length (c : Z) :
  (1 <= length (Utf8.encode_char c))%nat
  /\ (length (Utf8.encode_char c) = 1%nat -> c < 0x80).
Proof.
  unfold Utf8.encode_char.
  destruct (Z.ltb_spec c 0x80); [cbn; lia |].
  destruct (c <? 0x800); [cbn; lia |].
  destruct (c <? 0x10000); cbn; lia.
Qed.

Lemma utf8_encode_length (s : str) :
  forall (p : nat) (b : bytes),
    Utf8.encode p s = Ok b ->
    (length s <= length b)%nat
    /\ (length b = length s -> Forall is_ascii s).
Proof.
  induction s as [| c s IH]; intros p b H.
  - injection H as <-. split; [reflexivity | constructor].
  - cbn [Utf8.encode] in H. destruct (Utf8.unencodable c) eqn:Hc; [discriminate |].
    destruct (Utf8.encode (p + 1) s) as [b' |] eqn:Hs; [| discriminate].
    injection H as <-. destruct (IH _ _ Hs) as [Hle Heq].
    destruct (utf8_encode_char_length c) as [H1 H2].
    apply unencodable_false in Hc.
    rewrite length_app. cbn [length]. split; [lia |].
    intros Hlen. constructor; [unfold is_ascii; lia | apply Heq; lia].
Qed.

(** ** No carriage return survives the read and the repair *)

Lemma utf8_encode_In (c : codepoint) (s : str) :
  In c s -> is_ascii c ->
  forall (p : nat) (b : bytes), Utf8.encode p s = Ok b -> In (chr8 c) b.
Proof.
  intros Hin Hc. induction s as [| d s IH]; intros p b H; [destruct Hin |].
  cbn [Utf8.encode] in H. destruct (Utf8.unencodable d); [discriminate |].
  destruct (Utf8.encode (p + 1) s) as [b' |] eqn:Hs; [| discriminate].
  injection H as <-. apply in_or_app. destruct Hin as [-> | Hin].
  - left. unfold Utf8.encode_char, is_ascii in *.
    destruct (Z.ltb_spec c 0x80); [left; reflexivity | lia].
  - right. exact (IH Hin _ _ Hs).
Qed.

Lemma cp1252_decode_In (x : byte) (b : bytes) :
  In x b ->
  forall (p : nat) (s : str),
    Cp1252.decode p b = Ok s ->
    exists c, Cp1252.decoding_table x = Some c /\ In c s.
Proof.
  intros Hin. induction b as [| y b IH]; intros p s H; [destruct Hin |].
  simpl in H. destruct (Cp1252.decoding_table y) as [c |] eqn:Hy; [| discriminate].
  apply cons_ok_Ok in H. destruct H as (s' & Hs & ->).
  destruct Hin as [-> | Hin].
  - exists c. split; [exact Hy | left; reflexivity].
  - destruct (IH Hin _ _ Hs) as (c' & Hc' & Hin'). exists c'.
    split; [exact Hc' | right; exact Hin'].
Qed.

Lemma repair_no_CR (content fixed : str) :
  repair content = Ok fixed -> ~ In CR content -> ~ In CR fixed.
Proof.
  intros H Hno Hin. apply corrupt_repair in H.
  unfold corrupt, str_encode, bytes_decode in H.
  destruct (Utf8.encode 0 fixed) as [b |] eqn:Hb; [| discriminate].
  destruct (Cp1252.decode 0 b) as [m |] eqn:Hm; [| discriminate].
  injection H as ->.
  assert (Hx : In (chr8 CR) b).
  { apply (utf8_encode_In CR fixed Hin) with (p := 0%nat); [| exact Hb].
    unfold is_ascii, CR. lia. }
  destruct (cp1252_decode_In _ _ Hx _ _ Hm) as (c & Hc & Hc').
  vm_compute in Hc. injection Hc as <-. exact (Hno Hc').
Qed.

Lemma transcoded_no_CR (fs0 : FileSystem) (fixed : str) :
  transcoded fs0 fixed -> ~ In CR fixed.
Proof.
  intros (b & content & _ & _ & Hread & Hrep).
  apply (repair_no_CR content fixed Hrep).
  unfold read_text in Hread. destruct (bytes_decode b utf_8); [| discriminate].
  injection Hread as <-. apply universal_newlines_no_CR.
Qed.

Lemma text_bytes_reads_back (name : os.name_t) (fixed : str) (data : bytes) :
  text_bytes name fixed = Ok data -> ~ In CR fixed -> read_text data = Ok fixed.
Proof.
  unfold text_bytes, str_encode, read_text, bytes_decode. intros H Hno.
  destruct (Utf8.encode 0 (write_newlines (os.linesep name) fixed)) as [b |] eqn:Hb;
    [| discriminate].
  injection H as <-. rewrite (utf8_decode_encode _ _ _ Hb).
  rewrite universal_write_newlines by exact Hno. reflexivity.
Qed.

(** ** Successful runs *)

Lemma succeeded_inv (name : os.name_t) (fs0 : FileSystem) :
  In fixed_line (stdout (final (run name fs0))) ->
  exists fixed data,
    transcoded fs0 fixed /\ writable fs0 = true
    /\ text_bytes name fixed = Ok data /\ fits (quota fs0) data
    /\ run name fs0
       = Return tt {| fs := with_disk (Some data) fs0; buffer := [];
                      log := repair_log
                             ++ [EvOpen W; EvWrite fixed; EvPrint fixed_line] |}.
Proof.
  unfold transcoded. intros H. revert H.
  run_cases name fs0; cbn; intros H;
    repeat (destruct H as [H | H]; try discriminate H); try contradiction;
    exists fixed, data; (split; [eauto 8 |]); repeat split; try assumption.
Qed.

(** ** What the printed lines tell about the file *)

(** X1.  A run that reports an encoding or a decoding error printed nothing
    else and did not touch the file: it never opened it for writing, and
    the file system is as it was.  (The text handed to [f.write] came out of
    the utf-8 decoder, so the write itself cannot raise a Unicode error.) *)
Theorem unicode_error_line_means_untouched
    (name : os.name_t) (fs0 : FileSystem) (e : exn) :
  let st := final (run name fs0) in
  In (encode_error_line e) (stdout st) \/ In (decode_error_line e) (stdout st) ->
  (stdout st = [encode_error_line e] \/ stdout st = [decode_error_line e])
  /\ ~ In (EvOpen W) (log st)
  /\ fs st = fs0.
Proof.
  cbv zeta.
  run_cases name fs0; cbn; intros [H | H];
    repeat (destruct H as [H | H]; try discriminate H); try contradiction;
    injection H as <-;
    (split; [auto |]); (split; [intuition discriminate | reflexivity]).
Qed.

Lemma unicode_error_line_means_untouched_witness :
  let e := UnicodeDecodeError "utf-8" [xff] (UErr 0 1 "invalid start byte") in
  let st := final (run os.nt (file_of [xc3; xbf])) in
  (stdout st = [encode_error_line e] \/ stdout st = [decode_error_line e])
  /\ ~ In (EvOpen W) (log st)
  /\ fs st = file_of [xc3; xbf].
Proof.
  apply (unicode_error_line_means_untouched os.nt (file_of [xc3; xbf])).
  right. left. reflexivity.
Defined.

(** X2.  Once "Successfully decoded content." is on the output, exactly one
    more line follows: the success line, or the line for other errors
    carrying an [OSError] of the write (the file may not be opened for
    writing, or the volume is full).  No Unicode error is reported after
    that point. *)
Theorem after_decoded_line (name : os.name_t) (fs0 : FileSystem) :
  let st := final (run name fs0) in
  In decoded_line (stdout st) ->
  stdout st = [decoded_line; fixed_line]
  \/ stdout st = [decoded_line; other_error_line (OSError EACCES file_path)]
  \/ stdout st = [decoded_line; other_error_line (OSError ENOSPC file_path)].
Proof.
  cbv zeta.
  run_cases name fs0; cbn; intros H;
    repeat (destruct H as [H | H]; try discriminate H); try contradiction;
    auto.
Qed.

Lemma after_decoded_line_witness :
  let st := final (run os.nt {| disk := Some [x68; x69; x0a]; readable := true;
                                writable := true; quota := Some 3%nat |}) in
  stdout st = [decoded_line; fixed_line]
  \/ stdout st = [decoded_line; other_error_line (OSError EACCES file_path)]
  \/ stdout st = [decoded_line; other_error_line (OSError ENOSPC file_path)].
Proof.
  apply (after_decoded_line os.nt
           {| disk := Some [x68; x69; x0a]; readable := true;
              writable := true; quota := Some 3%nat |}).
  left. reflexivity.
Defined.

(** X3.  The success line is printed exactly when the three in-memory stages
    succeed, the file may be opened for writing and the encoded text fits;
    the file then holds exactly the UTF-8 bytes of the repaired text with
    each LF written as [os.linesep]. *)
Theorem fixed_line_iff (name : os.name_t) (fs0 : FileSystem) :
  In fixed_line (stdout (final (run name fs0)))
  <-> exists fixed data,
        transcoded fs0 fixed /\ writable fs0 = true
        /\ text_bytes name fixed = Ok data /\ fits (quota fs0) data
        /\ fs (final (run name fs0)) = with_disk (Some data) fs0.
Proof.
  split.
  - intros H. destruct (succeeded_inv name fs0 H) as (fixed & data & T & W & B & F & R).
    exists fixed, data. rewrite R. repeat split; assumption.
  - intros (fixed & data & (b & content & Hd & Hr & Hread & Hrep) & W & B & F & _).
    rewrite (run_written name fs0 b data content fixed); try assumption.
    cbn. tauto.
Qed.

(** X4.  After a successful run, reading the file again the way the script
    reads it gives back exactly the text that was written: the repaired text
    holds no CR, so the newline translation of the write is undone by the
    one of the read. *)
Theorem written_file_reads_back (name : os.name_t) (fs0 : FileSystem) :
  In fixed_line (stdout (final (run name fs0))) ->
  exists fixed data,
    In (EvWrite fixed) (log (final (run name fs0)))
    /\ disk (fs (final (run name fs0))) = Some data
    /\ read_text data = Ok fixed
    /\ ~ In CR fixed.
Proof.
  intros H. destruct (succeeded_inv name fs0 H) as (fixed & data & T & W & B & F & R).
  pose proof (transcoded_no_CR fs0 fixed T) as Hno.
  exists fixed, data. rewrite R. cbn. repeat split.
  - tauto.
  - exact (text_bytes_reads_back name fixed data B Hno).
  - exact Hno.
Qed.

Lemma written_file_reads_back_witness :
  exists fixed data,
    In (EvWrite fixed)
       (log (final (run os.nt (file_of [xc3; x83; xc2; xa9; x0d; x0a; x0d]))))
    /\ disk (fs (final (run os.nt (file_of [xc3; x83; xc2; xa9; x0d; x0a; x0d]))))
       = Some data
    /\ read_text data = Ok fixed
    /\ ~ In CR fixed.
Proof.
  apply (written_file_reads_back os.nt (file_of [xc3; x83; xc2; xa9; x0d; x0a; x0d])).
  vm_compute. tauto.
Defined.

Lemma fixed_line_iff_witness :
  exists fixed data,
    transcoded (file_of [xc3; x83; xc2; xa9]) fixed
    /\ writable (file_of [xc3; x83; xc2; xa9]) = true
    /\ text_bytes os.nt fixed = Ok data
    /\ fits (quota (file_of [xc3; x83; xc2; xa9])) data
    /\ fs (final (run os.nt (file_of [xc3; x83; xc2; xa9])))
       = with_disk (Some data) (file_of [xc3; x83; xc2; xa9]).
Proof.
  apply (proj1 (fixed_line_iff os.nt (file_of [xc3; x83; xc2; xa9]))).
  vm_compute. tauto.
Defined.

(** ** The repair as a transformation of text *)

(** X5.  The repair loses nothing: whenever it succeeds, corrupting its result
    again (UTF-8 bytes read as cp1252) gives back the text it started from,
    so no two different texts are repaired to the same one. *)
Theorem repair_reversible (m t : str) :
  repair m = Ok t ->
  corrupt t = Ok m /\ forall m', repair m' = Ok t -> m' = m.
Proof.
  intros H. pose proof (corrupt_repair m t H) as Hc. split; [exact Hc |].
  intros m' H'. apply corrupt_repair in H'. congruence.
Qed.

Lemma repair_reversible_witness :
  corrupt ecole = Ok ecole_mojibake
  /\ forall m', repair m' = Ok ecole -> m' = ecole_mojibake.
Proof.
  apply (repair_reversible ecole_mojibake ecole). reflexivity.
Defined.

Lemma repair_lengths (content fixed : str) :
  repair content = Ok fixed ->
  (length fixed <= length content)%nat
  /\ (length fixed = length content -> Forall is_ascii fixed).
Proof.
  intros H. pose proof (corrupt_repair content fixed H) as Hc.
  unfold corrupt, str_encode, bytes_decode in Hc.
  destruct (Utf8.encode 0 fixed) as [b |] eqn:Hb; [| discriminate].
  destruct (Cp1252.decode 0 b) as [m |] eqn:Hm; [| discriminate].
  injection Hc as ->.
  pose proof (cp1252_decode_length _ _ _ Hm) as Hlen.
  destruct (utf8_encode_length _ _ _ Hb) as [Hle Heq].
  split; [lia |]. intros Hsame. apply Heq. lia.
Qed.

(** X6.  A successful repair never lengthens the text, and it returns the text
    unchanged exactly when the text is pure ASCII: one character outside
    ASCII is enough for the result to differ from the input. *)
Theorem repair_identity_iff_ascii (content fixed : str) :
  repair content = Ok fixed ->
  (length fixed <= length content)%nat
  /\ (fixed = content <-> Forall is_ascii content).
Proof.
  intros H. destruct (repair_lengths content fixed H) as [Hle Hsame].
  split; [exact Hle |]. split.
  - intros E. rewrite E in Hsame. apply Hsame. reflexivity.
  - intros Ha. rewrite (repair_ascii content Ha) in H. congruence.
Qed.

Lemma repair_identity_iff_ascii_witness :
  (length ecole <= length ecole_mojibake)%nat
  /\ (ecole = ecole_mojibake <-> Forall is_ascii ecole_mojibake).
Proof.
  apply (repair_identity_iff_ascii ecole_mojibake ecole). reflexivity.
Defined.

(** ** Running the script again *)

(** X7.  Running the script a second time on a file it has just repaired: when
    the repaired text is pure ASCII, or cannot be transcoded again, the
    second run leaves the bytes of the file as they are.  Conversely a
    second run that succeeds leaves them as they are only when the repaired
    text is pure ASCII: on any other text a successful second run rewrites
    the file with a text repaired twice. *)
Theorem rerun_after_success
    (name : os.name_t) (fs0 : FileSystem) (fixed : str) :
  In fixed_line (stdout (final (run name fs0))) ->
  transcoded fs0 fixed ->
  let fs1 := fs (final (run name fs0)) in
  (Forall is_ascii fixed \/ (exists e, repair fixed = Err e) ->
   disk (fs (final (run name fs1))) = disk fs1)
  /\ (In fixed_line (stdout (final (run name fs1))) ->
      disk (fs (final (run name fs1))) = disk fs1 ->
      Forall is_ascii fixed).
Proof.
  intros H T fs1.
  destruct (succeeded_inv name fs0 H) as (fixed' & data & T' & W & B & F & R).
  assert (fixed' = fixed) by (apply (transcoded_functional fs0 fs0); auto).
  subst fixed'.
  pose proof (text_bytes_reads_back name fixed data B (transcoded_no_CR _ _ T))
    as Hback.
  destruct T as (b0 & c0 & _ & Hreadable & _ & _).
  assert (E1 : fs1 = with_disk (Some data) fs0) by (unfold fs1; rewrite R; reflexivity).
  assert (Hd1 : disk fs1 = Some data) by (rewrite E1; reflexivity).
  assert (Hr1 : readable fs1 = true) by (rewrite E1; exact Hreadable).
  assert (Hw1 : writable fs1 = true) by (rewrite E1; exact W).
  assert (Hq1 : quota fs1 = quota fs0) by (rewrite E1; reflexivity).
  split.
  - intros [Ha | [e He]].
    + rewrite (run_written name fs1 data data fixed fixed); try assumption.
      * rewrite Hd1. reflexivity.
      * apply repair_ascii. exact Ha.
      * rewrite Hq1. exact F.
    + unfold repair in He.
      destruct (str_encode fixed cp1252) as [b' |] eqn:Henc.
      * rewrite (run_decode_error name fs1 data b' fixed e); try assumption.
        reflexivity.
      * injection He as ->.
        rewrite (run_encode_error name fs1 data fixed e); try assumption.
        reflexivity.
  - intros H2 Hsame.
    destruct (succeeded_inv name fs1 H2) as (fixed2 & data2 & T2 & _ & B2 & _ & R2).
    rewrite R2 in Hsame. cbn in Hsame. rewrite Hd1 in Hsame.
    injection Hsame as ->.
    pose proof (text_bytes_reads_back name fixed2 data B2 (transcoded_no_CR _ _ T2))
      as Hback2.
    assert (fixed2 = fixed) by congruence. subst fixed2.
    destruct T2 as (b2 & c2 & Hb2 & _ & Hread2 & Hrep2).
    rewrite Hd1 in Hb2. injection Hb2 as <-.
    assert (c2 = fixed) by congruence. subst c2.
    apply (proj2 (repair_lengths fixed fixed Hrep2)). reflexivity.
Qed.

Lemma rerun_after_success_witness :
  let fs0 := file_of [x68; x69; x0a] in
  let fs1 := fs (final (run os.nt fs0)) in
  disk (fs (final (run os.nt fs1))) = disk fs1
  /\ Forall is_ascii [0x68; 0x69; 0x0A].
Proof.
  cbv zeta.
  assert (H : In fixed_line (stdout (final (run os.nt (file_of [x68; x69; x0a])))))
    by (vm_compute; tauto).
  assert (T : transcoded (file_of [x68; x69; x0a]) [0x68; 0x69; 0x0A]).
  { exists [x68; x69; x0a], [0x68; 0x69; 0x0A]. repeat split; reflexivity. }
  pose proof (rerun_after_success os.nt (file_of [x68; x69; x0a])
                [0x68; 0x69; 0x0A] H T) as [H1 H2].
  split.
  - apply H1. left.
    repeat (constructor; [unfold is_ascii; lia |]). constructor.
  - apply H2; [vm_compute; tauto | reflexivity].
Defined.

(** ** Where an error is reported *)

Lemma error_run_spec (bad : Z -> bool) (s : str) :
  (Utf8.error_run bad s <= length s)%nat
  /\ (forall i c, (i < Utf8.error_run bad s)%nat ->
                  nth_error s i = Some c -> bad c = true)
  /\ (forall c, nth_error s (Utf8.error_run bad s) = Some c -> bad c = false).
Proof.
  induction s as [| d s (IH1 & IH2 & IH3)]; cbn [Utf8.error_run length].
  - split; [lia |]. split; [intros i c Hi; lia | intros c H; discriminate H].
  - destruct (bad d) eqn:Hd.
    + split; [lia |]. split.
      * intros [| i] c Hi H; cbn in H; [congruence | apply (IH2 i c); [lia | exact H]].
      * intros c H. cbn in H. exact (IH3 c H).
    + split; [lia |]. split; [intros i c Hi; lia |].
      intros c H. cbn in H. congruence.
Qed.

Lemma cp1252_encode_error_position (s : str) :
  forall (p : nat) (u : unicode_error),
    Cp1252.encode p s = Err u ->
    (p <= start u < stop u)%nat /\ (stop u <= p + length s)%nat
    /\ (forall i c, (p + i < start u)%nat -> nth_error s i = Some c ->
                    Cp1252.encoding_table c <> None)
    /\ (forall i c, (start u <= p + i < stop u)%nat -> nth_error s i = Some c ->
                    Cp1252.encoding_table c = None)
    /\ (forall i c, (p + i = stop u)%nat -> nth_error s i = Some c ->
                    Cp1252.encoding_table c <> None).
Proof.
  induction s as [| d s IH]; intros p u H; [discriminate H |].
  cbn [Cp1252.encode] in H. destruct (Cp1252.encoding_table d) as [x |] eqn:Hd.
  - destruct (Cp1252.encode (p + 1) s) as [b |] eqn:Hs; [discriminate H |].
    cbn in H. injection H as <-.
    destruct (IH _ _ Hs) as (H1 & H2 & H3 & H4 & H5). cbn [length].
    split; [lia |]. split; [lia |]. split; [| split].
    + intros [| i] c Hi Hc; cbn in Hc; [congruence | apply (H3 i c); [lia | exact Hc]].
    + intros [| i] c Hi Hc; cbn in Hc; [lia | apply (H4 i c); [lia | exact Hc]].
    + intros [| i] c Hi Hc; cbn in Hc; [lia | apply (H5 i c); [lia | exact Hc]].
  - injection H as <-. cbn [start stop length].
    destruct (error_run_spec Cp1252.unencodable s) as (R1 & R2 & R3).
    assert (Hun : forall c, Cp1252.unencodable c = true <-> Cp1252.encoding_table c = None).
    { intros c. unfold Cp1252.unencodable.
      destruct (Cp1252.encoding_table c); split; congruence. }
    split; [lia |]. split; [lia |]. split; [| split].
    + intros i c Hi. lia.
    + intros [| i] c Hi Hc; cbn in Hc; [congruence |].
      apply Hun. apply (R2 i c); [lia | exact Hc].
    + intros [| i] c Hi Hc; cbn in Hc; [lia |].
      assert (i = Utf8.error_run Cp1252.unencodable s) by lia. subst i.
      specialize (R3 c Hc). intros Hn. apply Hun in Hn. congruence.
Qed.

(** X8.  When [content.encode('cp1252')] fails, the error names the text itself
    and the first run of characters that cp1252 cannot represent: every
    character before [start] has a cp1252 byte, none from [start] up to [end]
    has one, and the character at [end], if there is one, has one again. *)
Theorem cp1252_error_names_first_bad_run (s : str) (e : exn) :
  str_encode s cp1252 = Err e ->
  exists u,
    e = UnicodeEncodeError "charmap" s u
    /\ (start u < stop u <= length s)%nat
    /\ (forall i c, (i < start u)%nat -> nth_error s i = Some c ->
                    Cp1252.encoding_table c <> None)
    /\ (forall i c, (start u <= i < stop u)%nat -> nth_error s i = Some c ->
                    Cp1252.encoding_table c = None)
    /\ (forall c, nth_error s (stop u) = Some c ->
                  Cp1252.encoding_table c <> None).
Proof.
  unfold str_encode. intros H.
  destruct (Cp1252.encode 0 s) as [b | u] eqn:Hs; [discriminate H |].
  injection H as <-. exists u.
  destruct (cp1252_encode_error_position s 0%nat u Hs) as (H1 & H2 & H3 & H4 & H5).
  split; [reflexivity |]. split; [cbn in H2; lia |]. split; [| split].
  - intros i c Hi. apply H3. cbn. exact Hi.
  - intros i c Hi. apply H4. cbn. exact Hi.
  - intros c. apply H5. reflexivity.
Qed.

Lemma cp1252_error_names_first_bad_run_witness :
  let s : str := [0x41; 0x4E2D; 0x6587; 0x42] in
  exists u,
    UnicodeEncodeError "charmap" s (UErr 1 3 "character maps to <undefined>")
    = UnicodeEncodeError "charmap" s u
    /\ (start u < stop u <= length s)%nat
    /\ (forall i c, (i < start u)%nat -> nth_error s i = Some c ->
                    Cp1252.encoding_table c <> None)
    /\ (forall i c, (start u <= i < stop u)%nat -> nth_error s i = Some c ->
                    Cp1252.encoding_table c = None)
    /\ (forall c, nth_error s (stop u) = Some c ->
                  Cp1252.encoding_table c <> None).
Proof.
  cbv zeta.
  apply (cp1252_error_names_first_bad_run [0x41; 0x4E2D; 0x6587; 0x42]).
  reflexivity.
Defined.

Lemma cons_ok_Err (A E : Type) (a : A) (r : result (list A) E) (e : E) :
  cons_ok a r = Err e -> r = Err e.
Proof. destruct r; cbn; congruence. Qed.

Ltac reuse_tests :=
  repeat match goal with
         | H : ?c = _ |- context [if ?c then _ else _] => rewrite H
         end.

Lemma utf8_decode_error_position (n : nat) :
  forall (b : bytes) (p : nat) (u : unicode_error),
    (length b <= n)%nat -> Utf8.decode p b = Err u ->
    (p <= start u < stop u)%nat /\ (stop u <= p + length b)%nat
    /\ (stop u <= start u + 3)%nat
    /\ exists s, forall q, Utf8.decode q (firstn (start u - p) b) = Ok s.
Proof.
  induction n as [| n IH]; intros b p u Hn H.
  - destruct b; [discriminate H | cbn in Hn; lia].
  - destruct b as [| b1 b]; [discriminate H |].
    cbn [Utf8.decode] in H. cbv zeta in H. break_tests H;
      first
        [ (* an error at the first sequence *)
          injection H as <-;
          cbn [start stop length Utf8.invalid_start Utf8.invalid_continuation
               Utf8.unexpected_end];
          rewrite Nat.sub_diag; cbn [firstn];
          (split; [lia |]); (split; [lia |]); (split; [lia |]);
          exists []; intros q; reflexivity
        | (* the first sequence decodes, the error is further on *)
          apply cons_ok_Err in H;
          match type of H with
          | Utf8.decode (p + ?k) ?rest = _ =>
            destruct (IH rest (p + k)%nat u ltac:(cbn [length] in Hn |- *; lia) H)
              as (H1 & H2 & H3 & s & Hs);
            cbn [length]; (split; [lia |]); (split; [lia |]); (split; [lia |]);
            replace (start u - p)%nat with (k + (start u - (p + k)))%nat by lia;
            cbn [Nat.add firstn];
            eexists; intros q; cbn [Utf8.decode]; cbv zeta; reuse_tests;
            rewrite Hs; reflexivity
          end ].
Qed.

(** X9.  When bytes are not valid UTF-8, at the read or at the re-decode, the
    error names the data and a range of one to three bytes inside it, and
    everything before that range is valid UTF-8. *)
Theorem utf8_error_follows_valid_prefix (b : bytes) (e : exn) :
  bytes_decode b utf_8 = Err e ->
  exists u s,
    e = UnicodeDecodeError "utf-8" b u
    /\ (start u < stop u <= length b)%nat
    /\ (stop u <= start u + 3)%nat
    /\ bytes_decode (firstn (start u) b) utf_8 = Ok s.
Proof.
  unfold bytes_decode. intros H.
  destruct (Utf8.decode 0 b) as [t | u] eqn:Hb; [discriminate H |].
  injection H as <-.
  destruct (utf8_decode_error_position _ b 0%nat u (le_n _) Hb)
    as (H1 & H2 & H3 & s & Hs).
  exists u, s. split; [reflexivity |]. split; [cbn in H2; lia |].
  split; [exact H3 |].
  specialize (Hs 0%nat). rewrite Nat.sub_0_r in Hs. rewrite Hs. reflexivity.
Qed.

Lemma utf8_error_follows_valid_prefix_witness :
  let b : bytes := [x63; x61; x66; xe9; x73] in
  exists u s,
    UnicodeDecodeError "utf-8" b (UErr 3 4 "invalid continuation byte")
    = UnicodeDecodeError "utf-8" b u
    /\ (start u < stop u <= length b)%nat
    /\ (stop u <= start u + 3)%nat
    /\ bytes_decode (firstn (start u) b) utf_8 = Ok s.
Proof.
  cbv zeta.
  apply (utf8_error_follows_valid_prefix [x63; x61; x66; xe9; x73]).
  reflexivity.
Defined.

(** ** Line ends of the file that is written *)

Lemma utf8_encode_char_bytes (c : Z) (x : byte) :
  Utf8.unencodable c = false -> In x (Utf8.encode_char c) ->
  (c < 0x80 /\ ord x = c) \/ (0x80 <= c /\ 0x80 <= ord x).
Proof.
  intros Hc Hin. apply unencodable_false in Hc. unfold Utf8.encode_char in Hin.
  destruct (Z.ltb_spec c 0x80).
  - left. destruct Hin as [<- | []]. split; [lia | apply ord_chr8; lia].
  - right. split; [lia |].
    rewrite ?land_3F, ?shiftr_6, ?shiftr_12, ?shiftr_18 in Hin.
    destruct (Z.ltb_spec c 0x800); [| destruct (Z.ltb_spec c 0x10000)].
    + rewrite lor_C0, lor_80 in Hin by div_lia.
      cbn [In] in Hin. decompose [or] Hin; subst; try contradiction;
        rewrite ord_chr8 by div_lia; div_lia.
    + rewrite lor_E0, !lor_80 in Hin by div_lia.
      cbn [In] in Hin. decompose [or] Hin; subst; try contradiction;
        rewrite ord_chr8 by div_lia; div_lia.
    + rewrite lor_F0, !lor_80 in Hin by div_lia.
      cbn [In] in Hin. decompose [or] Hin; subst; try contradiction;
        rewrite ord_chr8 by div_lia; div_lia.
Qed.

Lemma utf8_encode_ascii_byte (s : str) :
  forall (p : nat) (b : bytes) (x : byte),
    Utf8.encode p s = Ok b -> In x b -> ord x < 0x80 -> In (ord x) s.
Proof.
  induction s as [| c s IH]; intros p b x H Hin Hx.
  - injection H as <-. destruct Hin.
  - cbn [Utf8.encode] in H. destruct (Utf8.unencodable c) eqn:Hc; [discriminate |].
    destruct (Utf8.encode (p + 1) s) as [b' |] eqn:Hs; [| discriminate].
    injection H as <-. apply in_app_or in Hin. destruct Hin as [Hin | Hin].
    + destruct (utf8_encode_char_bytes c x Hc Hin) as [[_ ->] | [_ Hhigh]];
        [left; reflexivity | lia].
    + right. exact (IH _ _ _ Hs Hin Hx).
Qed.

Lemma crlf_only_app (l b : bytes) :
  Forall (fun x => ord x <> 13 /\ ord x <> 10) l ->
  crlf_only (l ++ b) = crlf_only b.
Proof.
  induction 1 as [| x l [H13 H10] _ IH]; [reflexivity |].
  cbn [app crlf_only].
  destruct (Byte.eqb x x0d) eqn:E1.
  - apply Byte.byte_dec_bl in E1. subst x. exfalso. apply H13. reflexivity.
  - destruct (Byte.eqb x x0a) eqn:E2; [| exact IH].
    apply Byte.byte_dec_bl in E2. subst x. exfalso. apply H10. reflexivity.
Qed.

Lemma crlf_only_written (s : str) :
  ~ In CR s ->
  forall (p : nat) (b : bytes),
    Utf8.encode p (write_newlines (os.linesep os.nt) s) = Ok b ->
    crlf_only b = true.
Proof.
  unfold write_newlines.
  induction s as [| c s IH]; intros Hno p b H.
  - injection H as <-. reflexivity.
  - assert (Hs : ~ In CR s) by (intros Hin; apply Hno; right; exact Hin).
    assert (Hc : c <> CR) by (intros ->; apply Hno; left; reflexivity).
    cbn [flat_map] in H. destruct (Z.eqb_spec c LF) as [-> | Hlf].
    + cbn [os.linesep app Utf8.encode] in H.
      change (Utf8.unencodable CR) with false in H.
      change (Utf8.unencodable LF) with false in H. cbv iota in H.
      destruct (Utf8.encode (p + 1 + 1) _) as [b' |] eqn:Hb; [| discriminate].
      injection H as <-. cbn. exact (IH Hs _ _ Hb).
    + cbn [app Utf8.encode] in H.
      destruct (Utf8.unencodable c) eqn:Hu; [discriminate |].
      destruct (Utf8.encode (p + 1) _) as [b' |] eqn:Hb; [| discriminate].
      injection H as <-. rewrite crlf_only_app; [exact (IH Hs _ _ Hb) |].
      apply Forall_forall. intros x Hin.
      destruct (utf8_encode_char_bytes c x Hu Hin) as [[_ ->] | [_ Hhigh]];
        unfold CR, LF in *; lia.
Qed.

(** X10.  A file the script has rewritten has the line ends of the platform and
    no others, whatever line ends it had before: on POSIX it holds no CR
    byte at all, on Windows every CR byte is followed by LF and every LF
    byte is preceded by CR. *)
Theorem line_ends_normalised (name : os.name_t) (fs0 : FileSystem) :
  In fixed_line (stdout (final (run name fs0))) ->
  exists data,
    disk (fs (final (run name fs0))) = Some data
    /\ match name with
       | os.posix => ~ In x0d data
       | os.nt => crlf_only data = true
       end.
Proof.
  intros H. destruct (succeeded_inv name fs0 H) as (fixed & data & T & _ & B & _ & R).
  pose proof (transcoded_no_CR fs0 fixed T) as Hno.
  exists data. rewrite R. split; [reflexivity |].
  unfold text_bytes, str_encode in B.
  destruct (Utf8.encode 0 (write_newlines (os.linesep name) fixed)) as [b |] eqn:Hb;
    [| discriminate].
  injection B as <-. destruct name.
  - rewrite write_newlines_posix in Hb. intros Hin. apply Hno.
    apply (utf8_encode_ascii_byte fixed 0%nat b x0d Hb Hin). reflexivity.
  - exact (crlf_only_written fixed Hno _ _ Hb).
Qed.

Lemma line_ends_normalised_witness :
  exists data,
    disk (fs (final (run os.nt (file_of [x61; x0a; x62; x0d; x63; x0d; x0a]))))
    = Some data
    /\ crlf_only data = true.
Proof.
  apply (line_ends_normalised os.nt (file_of [x61; x0a; x62; x0d; x63; x0d; x0a])).
  vm_compute. tauto.
Defined.

(** ** Which runs change the file, and which texts can come out *)

(** X11.  The output tells whether the file was touched: a run that leaves the
    file system different from what it found printed the decoded line and
    then either the success line or the line for a full volume. *)
Theorem file_changed_only_by_write (name : os.name_t) (fs0 : FileSystem) :
  let st := final (run name fs0) in
  fs st <> fs0 ->
  stdout st = [decoded_line; fixed_line]
  \/ stdout st = [decoded_line; other_error_line (OSError ENOSPC file_path)].
Proof.
  cbv zeta.
  run_cases name fs0; cbn; intros H; auto; exfalso; apply H; reflexivity.
Qed.

Lemma file_changed_only_by_write_witness :
  let st := final (run os.nt (file_of [xc3; x83; xc2; xa9])) in
  stdout st = [decoded_line; fixed_line]
  \/ stdout st = [decoded_line; other_error_line (OSError ENOSPC file_path)].
Proof.
  apply (file_changed_only_by_write os.nt (file_of [xc3; x83; xc2; xa9])).
  vm_compute. discriminate.
Defined.

Lemma cp1252_undefined_bytes (x : byte) :
  Cp1252.decoding_table x = None <-> In x [x81; x8d; x8f; x90; x9d].
Proof.
  split.
  - destruct x; vm_compute; intros H; try discriminate H; tauto.
  - intros H. cbn [In] in H. decompose [or] H; subst; try reflexivity.
    contradiction.
Qed.

Lemma cp1252_decode_total (b : bytes) :
  Forall (fun x => ~ In x [x81; x8d; x8f; x90; x9d]) b ->
  forall p, exists s, Cp1252.decode p b = Ok s.
Proof.
  induction 1 as [| x b Hx _ IH]; intros p; [eexists; reflexivity |].
  cbn [Cp1252.decode].
  destruct (Cp1252.decoding_table x) as [c |] eqn:Hc.
  - destruct (IH (p + 1)%nat) as [s ->]. eexists. reflexivity.
  - exfalso. apply Hx. apply cp1252_undefined_bytes. exact Hc.
Qed.

(** X12.  The texts the repair can produce are exactly the texts whose UTF-8
    encoding holds none of the bytes 0x81, 0x8D, 0x8F, 0x90 and 0x9D, for
    which the strict cp1252 codec has no character.  A text with U+00C1,
    whose UTF-8 bytes are C3 81, is never the result of a repair. *)
Theorem repair_range (t : str) :
  (exists m, repair m = Ok t)
  <-> exists b, str_encode t utf_8 = Ok b
                /\ Forall (fun x => ~ In x [x81; x8d; x8f; x90; x9d]) b.
Proof.
  split.
  - intros [m H]. apply corrupt_repair in H. unfold corrupt in H.
    destruct (str_encode t utf_8) as [b |] eqn:Hb; [| discriminate].
    exists b. split; [reflexivity |]. apply Forall_forall. intros x Hin Hbad.
    unfold bytes_decode in H.
    destruct (Cp1252.decode 0 b) as [m' |] eqn:Hm; [| discriminate].
    destruct (cp1252_decode_In x b Hin _ _ Hm) as (c & Hc & _).
    apply cp1252_undefined_bytes in Hbad. congruence.
  - intros (b & Hb & Hall).
    destruct (cp1252_decode_total b Hall 0%nat) as [m Hm].
    exists m. apply repair_corrupt. unfold corrupt, bytes_decode.
    rewrite Hb, Hm. reflexivity.
Qed.

Lemma repair_range_witness :
  (exists b, str_encode ecole utf_8 = Ok b
             /\ Forall (fun x => ~ In x [x81; x8d; x8f; x90; x9d]) b)
  /\ ~ (exists m, repair m = Ok [0xC1]).
Proof.
  split.
  - apply (proj1 (repair_range ecole)). exists ecole_mojibake. reflexivity.
  - intros H. apply (proj1 (repair_range [0xC1])) in H.
    destruct H as (b & Hb & Hall). vm_compute in Hb. injection Hb as <-.
    inversion Hall as [| ? ? _ Hrest]; subst.
    inversion Hrest as [| ? ? H81 _]; subst.
    apply H81. left. reflexivity.
Defined.
